(** * The contact serializers of the product definition center

    A shallow embedding of [pdc/apps/contact/serializers.py]: the limit
    field, the polymorphic contact field and the validator that keeps
    (role, contact) pairs unique, together with the part of the serializer
    framework and of the object-relational mapper these three call.

    Layout: Python values and text, exceptions, the data model, the
    framework fields, the store and its monad, then the three classes of
    the source file; lemmas and the properties of the specification
    follow the definitions. *)

From Stdlib Require Import ZArith String Ascii List Lia.
From Stdlib Require Import DecimalString DecimalZ DecimalFacts DecimalPos.
From stdpp Require Import gmap strings list fin_maps.

Local Open Scope string_scope.
Local Open Scope Z_scope.

(** ** Python values

    The values a decoded JSON request can hand to a field: [None],
    booleans, integers, text and objects.  Floats are left out. *)

#[warnings="-register-all"]
Inductive pyval : Type :=
| PNone
| PBool (b : bool)
| PInt (n : Z)
| PStr (s : string)
| PDict (d : gmap string pyval).

(** [v == 'text']: only text compares equal to text. *)
Definition py_eq_str (v : pyval) (s : string) : bool :=
  match v with
  | PStr t => String.eqb t s
  | _ => false
  end.

(** [v == n] for an integer [n]; [True == 1] and [False == 0] hold in
    Python. *)
Definition py_eq_int (v : pyval) (n : Z) : bool :=
  match v with
  | PInt m => m =? n
  | PBool b => Z.b2z b =? n
  | _ => false
  end.

(** ** Text *)

(** [str(n)] for an integer. *)
Definition str_of_int (n : Z) : string :=
  NilZero.string_of_int (Z.to_int n).

(** [str(v)]; the rendering of a dictionary is not modelled (it opens with
    a brace, which is all its callers below depend on). *)
Definition py_str (v : pyval) : option string :=
  match v with
  | PNone => Some "None"
  | PBool true => Some "True"
  | PBool false => Some "False"
  | PInt n => Some (str_of_int n)
  | PStr s => Some s
  | PDict _ => None
  end.

(** The characters text [strip()], [int()] and the pattern class [\s]
    treat as blank.  A character of a text is a code point below 256: the
    six ASCII blanks, the separators U+001C to U+001F, U+0085 and
    U+00A0. *)
Definition is_space (c : ascii) : bool :=
  (Ascii.eqb c " " || Ascii.eqb c "009" || Ascii.eqb c "010"
   || Ascii.eqb c "011" || Ascii.eqb c "012" || Ascii.eqb c "013"
   || Ascii.eqb c "028" || Ascii.eqb c "029" || Ascii.eqb c "030"
   || Ascii.eqb c "031" || Ascii.eqb c "133" || Ascii.eqb c "160")%bool.

Fixpoint all_space (s : string) : bool :=
  match s with
  | EmptyString => true
  | String c r => is_space c && all_space r
  end.

Fixpoint lstrip (s : string) : string :=
  match s with
  | EmptyString => EmptyString
  | String c r => if is_space c then lstrip r else s
  end.

Fixpoint rstrip (s : string) : string :=
  match s with
  | EmptyString => EmptyString
  | String c r => if all_space s then EmptyString else String c (rstrip r)
  end.

(** [s.strip()] *)
Definition py_strip (s : string) : string := rstrip (lstrip s).

(** [int(s)] for text: surrounding blanks are dropped, one sign is allowed,
    and at least one decimal digit must follow and nothing else. *)
Definition py_int (s : string) : option Z :=
  match py_strip s with
  | EmptyString => None
  | String c r =>
      if Ascii.eqb c "-" then (fun d => - Z.of_uint d) <$> NilZero.uint_of_string r
      else if Ascii.eqb c "+" then Z.of_uint <$> NilZero.uint_of_string r
      else Z.of_uint <$> NilZero.uint_of_string (String c r)
  end.

(** Does [s] match [0*\s*$]? *)
Fixpoint zeros_then_space (s : string) : bool :=
  match s with
  | EmptyString => true
  | String c r => if Ascii.eqb c "0" then zeros_then_space r else all_space s
  end.

(** [re_decimal.sub('', s)] with [re_decimal = re.compile(r'\.0*\s*$')]:
    the text is cut at the first dot that only zeros and blanks follow. *)
Fixpoint re_decimal_sub (s : string) : string :=
  match s with
  | EmptyString => EmptyString
  | String c r =>
      if Ascii.eqb c "." && zeros_then_space r then EmptyString
      else String c (re_decimal_sub r)
  end.

(** The ten decimal digits. *)
Definition is_digit (c : ascii) : bool :=
  match DecimalString.uint_of_char c (Some Decimal.Nil) with
  | Some _ => true
  | None => false
  end.

Fixpoint all_digits (s : string) : bool :=
  match s with
  | EmptyString => true
  | String c r => is_digit c && all_digits r
  end.



(** A visible ASCII character: no blank, no control character. *)
Definition is_visible (c : ascii) : bool :=
  ((32 <? nat_of_ascii c) && (nat_of_ascii c <? 127))%nat.

Fixpoint all_visible (s : string) : bool :=
  match s with
  | EmptyString => true
  | String c r => is_visible c && all_visible r
  end.

(** Text that is not empty and is made of visible ASCII characters. *)
Definition plain_text (s : string) : bool :=
  negb (String.eqb s "") && all_visible s.

(** ** The data model

    [pdc/apps/contact/models.py] is not part of the sources at hand; the
    records below follow the data model of the specification. *)

(** Modelled from the spec: the concrete leaf kinds of a contact, Person
    (username, email) and Maillist (list name, email).  A row whose
    concrete class is neither is kept as [OtherLeaf] with the name of that
    class. *)
Inductive Leaf : Type :=
| PersonLeaf (username email : string)
| MaillistLeaf (mail_name email : string)
| OtherLeaf (type_name : string).

#[global] Instance Leaf_eq_dec : EqDecision Leaf.
Proof. solve_decision. Defined.

(** Modelled from the spec: the [Contact] model, a row that resolves to
    exactly one leaf kind; the leaf shares the key of its contact row. *)
Record Contact : Type := {
  contact_pk : Z;
  contact_leaf : Leaf
}.

(** Modelled from the spec: the [ContactRole] model, a name and a count
    limit. *)
Record ContactRole : Type := {
  role_pk : Z;
  role_name : string;
  role_count_limit : Z
}.

(** Modelled from the spec: the [RoleContact] model, the join of one role
    and one contact. *)
Record RoleContact : Type := {
  rc_pk : Z;
  rc_contact_role : ContactRole;
  rc_contact : Contact
}.

(** The two classes [field_to_class] can name. *)
Inductive LeafClass : Type := Person | Maillist.

(** ** Exceptions *)

(** What a validation error carries. *)
Inductive detail : Type :=
| error_code (code : string)
    (* [self.fail(code)]: the framework's message registered under [code] *)
| message (text : string)
    (* a literal message *)
| unsupported_contact (c : Contact)
    (* ["Unsupported Contact: %s" % c] *)
| unique_set (field_names : list string).
    (* ['The fields {field_names} must make a unique set.'] *)

Inductive exn : Type :=
| ValidationError (d : detail)
| FieldError
| DoesNotExist
| MultipleObjectsReturned
| AttributeError
| TypeError
| ValueError.

Inductive Result (A : Type) : Type :=
| Ok (a : A)
| Raise (e : exn).
Arguments Ok {A} a.
Arguments Raise {A} e.

#[global] Instance Result_ret : MRet Result := fun A a => Ok a.
#[global] Instance Result_bind : MBind Result := fun A B f r =>
  match r with
  | Ok a => f a
  | Raise e => Raise e
  end.
#[global] Instance Result_fmap : FMap Result := fun A B f r =>
  match r with
  | Ok a => Ok (f a)
  | Raise e => Raise e
  end.

Definition fail {A} (code : string) : Result A :=
  Raise (ValidationError (error_code code)).

Definition is_validation_error {A} (r : Result A) : bool :=
  match r with
  | Raise (ValidationError _) => true
  | _ => false
  end.

(** ** Framework fields ([rest_framework.fields]) *)

(** *** IntegerField *)

Record IntegerField : Type := {
  max_value : option Z;
  min_value : option Z
}.

Definition MAX_STRING_LENGTH : nat := 1000.

(** [IntegerField.to_internal_value]:
    text longer than [MAX_STRING_LENGTH] fails with [max_string_length];
    otherwise [int(re_decimal.sub('', str(data)))], and a [ValueError] or
    [TypeError] of that expression becomes [invalid]. *)
Definition IntegerField_to_internal_value (data : pyval) : Result Z :=
  match data with
  | PStr s =>
      if (MAX_STRING_LENGTH <? String.length s)%nat then fail "max_string_length"
      else match py_int (re_decimal_sub s) with
           | Some n => Ok n
           | None => fail "invalid"
           end
  | _ =>
      match py_str data ≫= (fun s => py_int (re_decimal_sub s)) with
      | Some n => Ok n
      | None => fail "invalid"
      end
  end.

(** [int(value)]: text is parsed; [None] and dictionaries raise
    [TypeError]. *)
Definition py_int_of (value : pyval) : Result Z :=
  match value with
  | PInt n => Ok n
  | PBool b => Ok (Z.b2z b)
  | PStr s => match py_int s with Some n => Ok n | None => Raise ValueError end
  | PNone | PDict _ => Raise TypeError
  end.

(** [IntegerField.to_representation]: [int(value)]. *)
Definition IntegerField_to_representation (value : pyval) : Result pyval :=
  PInt <$> py_int_of value.

(** The validators [IntegerField.__init__] installs: [MaxValueValidator]
    when [max_value] is given, then [MinValueValidator] when [min_value]
    is. *)
Definition IntegerField_run_validators (self : IntegerField) (value : Z)
  : Result unit :=
  match max_value self with
  | Some m => if m <? value then fail "max_value" else Ok tt
  | None => Ok tt
  end ≫= fun _ =>
  match min_value self with
  | Some m => if value <? m then fail "min_value" else Ok tt
  | None => Ok tt
  end.

(** [Field.run_validation] for a field that does not allow null, written
    over the field's own [to_internal_value] and validators. *)
Definition Field_run_validation {A}
    (to_internal_value : pyval -> Result A)
    (run_validators : A -> Result unit) (data : pyval) : Result A :=
  match data with
  | PNone => fail "null"
  | _ =>
      value ← to_internal_value data;
      _ ← run_validators value;
      mret value
  end.


(** *** CharField and DictField *)

(** [CharField.run_validation] with the defaults [allow_blank=False] and
    [trim_whitespace=True]: blank text fails with [blank], [None] with
    [null], booleans and containers with [invalid]; text and integers are
    rendered with [str] and stripped. *)
Definition CharField_run_validation (data : pyval) : Result string :=
  match data with
  | PNone => fail "null"
  | PBool _ | PDict _ => fail "invalid"
  | PInt n => Ok (str_of_int n)
  | PStr s => if String.eqb (py_strip s) "" then fail "blank" else Ok (py_strip s)
  end.

(** The first exception among the validated children, in the order the
    dictionary is walked. *)
Definition first_raise {A} (l : list (string * Result A)) : option exn :=
  head (omap (fun kv => match kv.2 with Raise e => Some e | Ok _ => None end) l).

(** [DictField.to_internal_value]: anything but a dictionary fails with
    [not_a_dict]; every value goes through [child.run_validation] and the
    keys are kept. *)
Definition DictField_to_internal_value {A}
    (child : pyval -> Result A) (data : pyval) : Result (gmap string A) :=
  match data with
  | PDict d =>
      let checked := child <$> d in
      match first_raise (map_to_list checked) with
      | Some e => Raise e
      | None =>
          Ok (omap (fun r => match r with Ok a => Some a | Raise _ => None end)
                checked)
      end
  | _ => fail "not_a_dict"
  end.

(** ** LimitField *)

Definition UNLIMITED_STR : string := "unlimited".

Record LimitField : Type := {
  base : IntegerField;
  unlimited_value : Z
}.

(** [LimitField.__init__]: the keyword arguments reach [IntegerField] with
    [min_value] forced to 0. *)
Definition LimitField_init (unlimited_value : Z) (kwargs : IntegerField)
  : LimitField :=
  {| base := {| max_value := max_value kwargs; min_value := Some 0 |};
     unlimited_value := unlimited_value |}.

Definition LimitField_to_representation (self : LimitField) (obj : pyval)
  : Result pyval :=
  if py_eq_int obj (unlimited_value self) then Ok (PStr UNLIMITED_STR)
  else IntegerField_to_representation obj.

Definition LimitField_to_internal_value (self : LimitField) (value : pyval)
  : Result Z :=
  if py_eq_str value UNLIMITED_STR then Ok (unlimited_value self)
  else IntegerField_to_internal_value value.

(** The inherited [run_validation] dispatches to the overridden
    [to_internal_value]. *)
Definition LimitField_run_validation (self : LimitField) (data : pyval)
  : Result Z :=
  Field_run_validation (LimitField_to_internal_value self)
    (IntegerField_run_validators (base self)) data.

(** ** The store, the changeset log and their monad *)

(** Modelled from the spec: [contact.export()] is a method of the models;
    its result, the leaf's exported form, is kept symbolic. *)
Inductive exported : Type := export (c : Contact).

(** The two texts a changeset entry holds: a literal, or [json.dumps] of an
    exported form (kept symbolic as well). *)
Inductive text : Type :=
| literal (s : string)
| json_dumps (v : exported).

(** One call of [request.changeset.add(model_name, id, old, new)]. *)
Record ChangesetEntry : Type := {
  entity_type : string;
  entity_id : Z;
  old_state : text;
  new_state : text
}.

Record World : Type := {
  contacts : list Contact;
  contact_roles : list ContactRole;
  role_contacts : list RoleContact;
  changeset : list ChangesetEntry
}.

(** Code that reads and writes the store and may raise. *)
Definition M (A : Type) : Type := World -> Result A * World.

#[global] Instance M_ret : MRet M := fun A a w => (Ok a, w).
#[global] Instance M_bind : MBind M := fun A B f m w =>
  match m w with
  | (Ok a, w') => f a w'
  | (Raise e, w') => (Raise e, w')
  end.

Definition raise {A} (e : exn) : M A := fun w => (Raise e, w).

(** A computation that only reads the store. *)
Definition query {A} (f : World -> Result A) : M A := fun w => (f w, w).

(** A pure, possibly failing step. *)
Definition lift {A} (r : Result A) : M A := query (fun _ => r).

(** ** The object-relational mapper

    The managers of the model classes, as far as the serializers call
    them: [get], [get_or_create], [filter], [exclude], [exists]. *)

Record ModelField : Type := {
  name : string;
  primary_key : bool
}.

Definition leaf_class (l : Leaf) : option LeafClass :=
  match l with
  | PersonLeaf _ _ => Some Person
  | MaillistLeaf _ _ => Some Maillist
  | OtherLeaf _ => None
  end.

#[global] Instance LeafClass_eq_dec : EqDecision LeafClass.
Proof. solve_decision. Defined.

Definition isinstance (l : Leaf) (clazz : LeafClass) : bool :=
  bool_decide (leaf_class l = Some clazz).

(** [type(leaf).__name__] *)
Definition type_name (l : Leaf) : string :=
  match l with
  | PersonLeaf _ _ => "Person"
  | MaillistLeaf _ _ => "Maillist"
  | OtherLeaf n => n
  end.

(** Modelled from the spec: [clazz._meta.fields], the columns the
    specification gives each leaf kind, with [id] as the key. *)
Definition class_fields (clazz : LeafClass) : list ModelField :=
  match clazz with
  | Person => [ {| name := "id"; primary_key := true |};
                {| name := "username"; primary_key := false |};
                {| name := "email"; primary_key := false |} ]
  | Maillist => [ {| name := "id"; primary_key := true |};
                  {| name := "mail_name"; primary_key := false |};
                  {| name := "email"; primary_key := false |} ]
  end.

(** [leaf._meta.fields] *)
Definition meta_fields (l : Leaf) : list ModelField :=
  match leaf_class l with
  | Some clazz => class_fields clazz
  | None => [ {| name := "id"; primary_key := true |} ]
  end.

(** Modelled from the spec: [getattr(leaf, name)] for the columns of the
    leaf that hold text. *)
Definition getattr (l : Leaf) (field : string) : option string :=
  match l with
  | PersonLeaf username email =>
      if String.eqb field "username" then Some username
      else if String.eqb field "email" then Some email
      else None
  | MaillistLeaf mail_name email =>
      if String.eqb field "mail_name" then Some mail_name
      else if String.eqb field "email" then Some email
      else None
  | OtherLeaf _ => None
  end.

(** The keyword arguments a lookup on [clazz.objects] resolves. *)
Definition columns (clazz : LeafClass) : list string :=
  name <$> List.filter (fun f => negb (primary_key f)) (class_fields clazz).

(** [get()]: exactly one row, or an exception. *)
Definition get_unique {A} (rows : list A) : Result A :=
  match rows with
  | [] => Raise DoesNotExist
  | [x] => Ok x
  | _ => Raise MultipleObjectsReturned
  end.

(** The keywords this model of the mapper resolves: the text columns of
    the class.  The mapper itself also resolves the key ([id], [pk]) and
    lookup expressions such as [email__contains]; payloads that use those
    are outside the model, and the properties that depend on the lookup
    are stated for payloads whose keys are columns. *)
Definition keywords_ok (clazz : LeafClass) (kwargs : gmap string string) : bool :=
  bool_decide (map_Forall (fun k _ => k ∈ columns clazz) kwargs).

Definition leaf_matches (l : Leaf) (kwargs : gmap string string) : bool :=
  bool_decide (map_Forall (fun k v => getattr l k = Some v) kwargs).

(** [clazz.objects.filter] with keyword arguments [kwargs] *)
Definition objects_filter (clazz : LeafClass) (kwargs : gmap string string)
    (w : World) : list Contact :=
  List.filter
    (fun c => isinstance (contact_leaf c) clazz
              && leaf_matches (contact_leaf c) kwargs)
    (contacts w).

(** [clazz.objects.get] with keyword arguments [kwargs], for keywords that
    are columns: the one row that equals the payload on them.  A keyword
    that names no field of the class raises [FieldError]; the model gives
    that answer for every keyword outside the columns (see
    [keywords_ok]). *)
Definition objects_get (clazz : LeafClass) (kwargs : gmap string string)
  : M Contact :=
  query (fun w =>
    if keywords_ok clazz kwargs then get_unique (objects_filter clazz kwargs w)
    else Raise FieldError).

(** The key the store gives the next contact row. *)
Definition next_id (w : World) : Z :=
  1 + fold_right Z.max 0 (contact_pk <$> contacts w).

(** The constructor [clazz] with keyword arguments [params]: a text
    column without a value holds the empty text. *)
Definition new_leaf (clazz : LeafClass) (params : gmap string string) : Leaf :=
  match clazz with
  | Person =>
      PersonLeaf (default "" (params !! "username")) (default "" (params !! "email"))
  | Maillist =>
      MaillistLeaf (default "" (params !! "mail_name")) (default "" (params !! "email"))
  end.

(** [clazz.objects.create] with keyword arguments [params] *)
Definition objects_create (clazz : LeafClass) (params : gmap string string)
  : M Contact :=
  fun w =>
    let c := {| contact_pk := next_id w; contact_leaf := new_leaf clazz params |} in
    (Ok c, {| contacts := contacts w ++ [c];
              contact_roles := contact_roles w;
              role_contacts := role_contacts w;
              changeset := changeset w |}).

(** [clazz.objects.get_or_create] with keyword arguments [kwargs]: [get],
    and [create] when [get] raised [DoesNotExist]. *)
Definition objects_get_or_create (clazz : LeafClass) (kwargs : gmap string string)
  : M (Contact * bool) :=
  fun w =>
    match objects_get clazz kwargs w with
    | (Ok c, w') => (Ok (c, false), w')
    | (Raise DoesNotExist, w') =>
        (c ← objects_create clazz kwargs; mret (c, true)) w'
    | (Raise e, w') => (Raise e, w')
    end.

(** The name under which [Contact] reaches the rows of a leaf class. *)
Definition relation_name (clazz : LeafClass) : string :=
  match clazz with
  | Person => "person"
  | Maillist => "maillist"
  end.

Definition strip_prefix (p s : string) : option string :=
  if String.prefix p s
  then Some (String.substring (String.length p)
               (String.length s - String.length p) s)
  else None.

(** A keyword of [Contact.objects.get]: [<relation>__<column>]. *)
Definition contact_keyword (key : string) : option (LeafClass * string) :=
  let via clazz :=
    f ← strip_prefix (relation_name clazz +:+ "__") key;
    if bool_decide (f ∈ columns clazz) then Some (clazz, f) else None in
  match via Person with
  | Some r => Some r
  | None => via Maillist
  end.

Definition keyword_matches (c : Contact) (k v : string) : bool :=
  match contact_keyword k with
  | Some (clazz, f) =>
      isinstance (contact_leaf c) clazz
      && bool_decide (getattr (contact_leaf c) f = Some v)
  | None => false
  end.

Definition contact_matches (c : Contact) (data : gmap string string) : bool :=
  bool_decide (map_Forall (fun k v => keyword_matches c k v = true) data).

(** [Contact.objects.get] with keyword arguments [data] *)
Definition Contact_objects_get (data : gmap string string) : M Contact :=
  query (fun w =>
    if bool_decide (map_Forall (fun k _ => is_Some (contact_keyword k)) data)
    then get_unique (List.filter (fun c => contact_matches c data) (contacts w))
    else Raise FieldError).

(** [ContactRole.objects.get(name=n)] *)
Definition ContactRole_objects_get (n : string) : M ContactRole :=
  query (fun w =>
    get_unique (List.filter (fun r => String.eqb (role_name r) n) (contact_roles w))).

(** [request.changeset.add(...)] *)
Definition changeset_add (e : ChangesetEntry) : M unit :=
  fun w =>
    (Ok tt, {| contacts := contacts w;
               contact_roles := contact_roles w;
               role_contacts := role_contacts w;
               changeset := changeset w ++ [e] |}).

(** [ContentType.objects.get_for_model(contact).model]: the name of the
    model class in lower case. *)
Definition model_name (l : Leaf) : string :=
  match l with
  | PersonLeaf _ _ => "person"
  | MaillistLeaf _ _ => "maillist"
  | OtherLeaf n => n
  end.

(** Modelled from the spec: [contact.as_leaf_class()] is a method of the
    models; a contact row of this model carries its leaf, so the leaf view
    is the row itself. *)
Definition as_leaf_class (c : Contact) : Contact := c.

(** ** The leaf serializers

    [PersonSerializer] and [MaillistSerializer] list their fields in
    [Meta.fields]; [url] is not among them, so excluding it changes
    nothing. *)

Inductive Serializer : Type := PersonSerializer | MaillistSerializer.

Definition Meta_fields (s : Serializer) : list string :=
  match s with
  | PersonSerializer => ["id"; "username"; "email"]
  | MaillistSerializer => ["id"; "mail_name"; "email"]
  end.

(** The outward value of one serializer field; a missing attribute raises
    [AttributeError]. *)
Definition field_value (c : Contact) (field : string) : Result pyval :=
  if String.eqb field "id" then Ok (PInt (contact_pk c))
  else match getattr (contact_leaf c) field with
       | Some v => Ok (PStr v)
       | None => Raise AttributeError
       end.

Fixpoint fields_to_representation (c : Contact) (fields : list string)
  : Result (gmap string pyval) :=
  match fields with
  | [] => Ok ∅
  | f :: rest =>
      v ← field_value c f;
      d ← fields_to_representation c rest;
      mret (<[f := v]> d)
  end.

Definition Serializer_to_representation (s : Serializer) (c : Contact)
  : Result pyval :=
  PDict <$> fields_to_representation c (Meta_fields s).

(** ** ContactField *)

(** [field_to_class] is a dictionary and the loop walks its [items()];
    which key comes first is the interpreter's choice. *)
Inductive items_order : Type := username_first | mail_name_first.

Definition field_to_class (o : items_order) : list (string * LeafClass) :=
  match o with
  | username_first => [("username", Person); ("mail_name", Maillist)]
  | mail_name_first => [("mail_name", Maillist); ("username", Person)]
  end.

Definition class_to_serializer : gmap string Serializer :=
  <["Person" := PersonSerializer]> (<["Maillist" := MaillistSerializer]> ∅).

(** The request of [self.context]; its changeset is the log of the
    world. *)
Inductive Request : Type := HttpRequest.

Record ContactField : Type := {
  child : pyval -> Result string;
  context_request : option Request;
  order : items_order
}.

(** The field as the class declares it: [child = serializers.CharField()]. *)
Definition ContactField_init (request : option Request) (o : items_order)
  : ContactField :=
  {| child := CharField_run_validation; context_request := request; order := o |}.

Definition ContactField_to_representation (self : ContactField) (value : Contact)
  : Result pyval :=
  let leaf_value := as_leaf_class value in
  match class_to_serializer !! type_name (contact_leaf leaf_value) with
  | Some serializer_cls => Serializer_to_representation serializer_cls leaf_value
  | None => Raise (ValidationError (unsupported_contact value))
  end.

(** The class the loop of [to_internal_value] picks: the first key of
    [items] that the validated data holds. *)
Fixpoint select_class (items : list (string * LeafClass))
    (v_data : gmap string string) : option LeafClass :=
  match items with
  | [] => None
  | (key, clazz) :: rest =>
      if bool_decide (is_Some (v_data !! key)) then Some clazz
      else select_class rest v_data
  end.

(** The body run for the key that is found. *)
Definition resolve_contact (self : ContactField) (clazz : LeafClass)
    (v_data : gmap string string) : M Contact :=
  '(contact, created) ← objects_get_or_create clazz v_data;
  _ ← (if created : bool then
         let model := model_name (contact_leaf contact) in
         match context_request self with
         | Some _ =>
             changeset_add {| entity_type := model;
                              entity_id := contact_pk contact;
                              old_state := literal "null";
                              new_state := json_dumps (export contact) |}
         | None => mret tt
         end
       else mret tt);
  mret contact.

Fixpoint to_internal_value_loop (self : ContactField)
    (items : list (string * LeafClass)) (v_data : gmap string string)
  : M Contact :=
  match items with
  | [] => raise (ValidationError (message "Could not determine type of contact."))
  | (key, clazz) :: rest =>
      if bool_decide (is_Some (v_data !! key))
      then resolve_contact self clazz v_data
      else to_internal_value_loop self rest v_data
  end.

Definition ContactField_to_internal_value (self : ContactField) (data : pyval)
  : M Contact :=
  v_data ← lift (DictField_to_internal_value (child self) data);
  to_internal_value_loop self (field_to_class (order self)) v_data.

(** ** UniqueRoleContactValidator *)

Record UniqueRoleContactValidator : Type := {
  unique_together : list string;
  instance : option RoleContact
}.

(** [__init__]: [unique_together] is [RoleContact._meta.unique_together[0]],
    a constant of the model; the query set is lazy and is read from the
    store when it is evaluated. *)
Definition UniqueRoleContactValidator_init (unique_together : list string)
  : UniqueRoleContactValidator :=
  {| unique_together := unique_together; instance := None |}.

(** [set_context(data)] with [data.instance]. *)
Definition set_context (self : UniqueRoleContactValidator)
    (data_instance : option RoleContact) : UniqueRoleContactValidator :=
  {| unique_together := unique_together self; instance := data_instance |}.

(** The validated attributes handed to the validator: a dictionary that
    may hold ["contact_role"] and ["contact"]. *)
Record Attrs : Type := {
  attrs_contact_role : option ContactRole;
  attrs_contact : option Contact
}.

(** [get_contact_role_pk(instance)]; [None] has no attribute [name]. *)
Definition get_contact_role_pk (instance : option ContactRole) : M Z :=
  match instance with
  | None => raise AttributeError
  | Some r =>
      crole_instance ← ContactRole_objects_get (role_name r);
      mret (role_pk crole_instance)
  end.

(** The loop over [leaf_instance._meta.fields]. *)
Fixpoint collect_fields (query_prefix : string) (leaf_instance : Leaf)
    (fields : list ModelField) (data : gmap string string)
  : Result (gmap string string) :=
  match fields with
  | [] => Ok data
  | field :: rest =>
      if primary_key field then collect_fields query_prefix leaf_instance rest data
      else match getattr leaf_instance (name field) with
           | Some v =>
               collect_fields query_prefix leaf_instance rest
                 (<[query_prefix +:+ name field := v]> data)
           | None => Raise AttributeError
           end
  end.

(** [get_contact_pk(instance)] *)
Definition get_contact_pk (instance : option Contact) : M Z :=
  match instance with
  | None => raise AttributeError
  | Some c =>
      let leaf_instance := contact_leaf (as_leaf_class c) in
      query_prefix ←
        (if isinstance leaf_instance Person then mret "person__"
         else if isinstance leaf_instance Maillist then mret "maillist__"
         else raise (ValidationError (unsupported_contact c)));
      data ← lift (collect_fields query_prefix leaf_instance
                     (meta_fields leaf_instance) ∅);
      contact ← Contact_objects_get data;
      mret (contact_pk contact)
  end.

(** [self.query_set.filter(contact_role_id=.., contact_id=..)], less the
    instance being updated. *)
Definition queryset (self : UniqueRoleContactValidator)
    (contact_role_id contact_id : Z) (w : World) : list RoleContact :=
  let queryset :=
    List.filter
      (fun rc => (role_pk (rc_contact_role rc) =? contact_role_id)
                 && (contact_pk (rc_contact rc) =? contact_id))
      (role_contacts w) in
  match instance self with
  | Some i => List.filter (fun rc => negb (rc_pk rc =? rc_pk i)) queryset
  | None => queryset
  end.

(** [filter_queryset] *)
Definition filter_queryset (self : UniqueRoleContactValidator)
    (contact_role_id contact_id : Z) : M unit :=
  query (fun w =>
    match queryset self contact_role_id contact_id w with
    | _ :: _ => Raise (ValidationError (unique_set (unique_together self)))
    | [] => Ok tt
    end).

(** The pair [__call__] validates. *)
Definition candidate (self : UniqueRoleContactValidator) (value : Attrs)
  : option ContactRole * option Contact :=
  match instance self with
  | Some i =>
      (Some (default (rc_contact_role i) (attrs_contact_role value)),
       Some (default (rc_contact i) (attrs_contact value)))
  | None => (attrs_contact_role value, attrs_contact value)
  end.

(** [__call__(value)] *)
Definition UniqueRoleContactValidator_call (self : UniqueRoleContactValidator)
    (value : Attrs) : M unit :=
  let '(crole_input, contact_input) := candidate self value in
  contact_role_id ← get_contact_role_pk crole_input;
  contact_id ← get_contact_pk contact_input;
  filter_queryset self contact_role_id contact_id.

(** ** Notions the properties are stated with *)

(** [key in data] for a payload; only a dictionary holds keys. *)
Definition payload_has (data : pyval) (key : string) : bool :=
  match data with
  | PDict d => bool_decide (is_Some (d !! key))
  | _ => false
  end.

(** Are the keys of the payload columns of [clazz]?  Anything but a
    dictionary holds no key. *)
Definition keys_in_columns (clazz : LeafClass) (data : pyval) : bool :=
  match data with
  | PDict d => bool_decide (map_Forall (fun k _ => k ∈ columns clazz) d)
  | _ => true
  end.

(** A payload of the wire form: its keys are columns of one leaf class. *)
Definition wire_payload (data : pyval) : bool :=
  keys_in_columns Person data || keys_in_columns Maillist data.

(** A computation that leaves the world as it found it. *)
Definition read_only {A} (m : M A) : Prop := forall w, (m w).2 = w.

(** ** Sample data *)

Definition empty_world : World :=
  {| contacts := []; contact_roles := []; role_contacts := []; changeset := [] |}.

(** [LimitField(required=False, unlimited_value=0)] *)
Definition count_limit_field : LimitField :=
  LimitField_init 0 {| max_value := None; min_value := None |}.

Definition alice_payload : pyval :=
  PDict (<["username" := PStr "alice"]> (<["email" := PStr "a@x.com"]> ∅)).

Definition alice_data : gmap string string :=
  <["username" := "alice"]> (<["email" := "a@x.com"]> ∅).

Definition list1_payload : pyval :=
  PDict (<["mail_name" := PStr "list1"]> (<["email" := PStr "l@x.com"]> ∅)).


Definition ambiguous_payload : pyval :=
  PDict (<["username" := PStr "alice"]>
          (<["mail_name" := PStr "list1"]> (<["email" := PStr "a@x.com"]> ∅))).

Definition ambiguous_data : gmap string string :=
  <["username" := "alice"]>
    (<["mail_name" := "list1"]> (<["email" := "a@x.com"]> ∅)).

Definition email_only_payload : pyval :=
  PDict (<["email" := PStr "a@x.com"]> ∅).

Definition qe : ContactRole :=
  {| role_pk := 1; role_name := "qe"; role_count_limit := 0 |}.
Definition dev : ContactRole :=
  {| role_pk := 2; role_name := "dev"; role_count_limit := 1 |}.
Definition alice : Contact :=
  {| contact_pk := 1; contact_leaf := PersonLeaf "alice" "a@x.com" |}.
Definition list1 : Contact :=
  {| contact_pk := 2; contact_leaf := MaillistLeaf "list1" "l@x.com" |}.
Definition bare_contact : Contact :=
  {| contact_pk := 4; contact_leaf := OtherLeaf "Contact" |}.
Definition qe_alice : RoleContact :=
  {| rc_pk := 7; rc_contact_role := qe; rc_contact := alice |}.
Definition dev_list1 : RoleContact :=
  {| rc_pk := 8; rc_contact_role := dev; rc_contact := list1 |}.
Definition dev_alice : RoleContact :=
  {| rc_pk := 9; rc_contact_role := dev; rc_contact := alice |}.

Definition sample_world : World :=
  {| contacts := [alice; list1];
     contact_roles := [qe; dev];
     role_contacts := [qe_alice; dev_list1; dev_alice];
     changeset := [] |}.

(** The world after alice was created in the empty one, with a request at
    hand. *)
Definition alice_world : World :=
  {| contacts := [alice]; contact_roles := []; role_contacts := [];
     changeset := [ {| entity_type := "person"; entity_id := 1;
                       old_state := literal "null";
                       new_state := json_dumps (export alice) |} ] |}.

(** A candidate pair that names the role and the person of [qe_alice] by
    their values only. *)
Definition qe_alice_again : Attrs :=
  {| attrs_contact_role :=
       Some {| role_pk := 0; role_name := "qe"; role_count_limit := 0 |};
     attrs_contact :=
       Some {| contact_pk := 0; contact_leaf := PersonLeaf "alice" "a@x.com" |} |}.

(** ** Notions for the further properties *)

(** No two stored contacts carry the same leaf. *)
Definition leaves_unique (w : World) : Prop :=
  NoDup (contact_leaf <$> contacts w).

(** No two stored contacts carry the same key. *)
Definition keys_unique (w : World) : Prop :=
  NoDup (contact_pk <$> contacts w).

(** Every join record points at a stored contact. *)
Definition joins_reference_contacts (w : World) : Prop :=
  forall rc, In rc (role_contacts w) ->
    exists c, In c (contacts w) /\ contact_pk c = contact_pk (rc_contact rc).

(** The world after [to_internal_value] created [c]: the row is appended,
    and so is its changeset entry when the field has a request. *)
Definition created_world (self : ContactField) (w : World) (c : Contact) : World :=
  {| contacts := contacts w ++ [c];
     contact_roles := contact_roles w;
     role_contacts := role_contacts w;
     changeset :=
       match context_request self with
       | Some _ =>
           changeset w ++ [ {| entity_type := model_name (contact_leaf c);
                               entity_id := contact_pk c;
                               old_state := literal "null";
                               new_state := json_dumps (export c) |} ]
       | None => changeset w
       end |}.

(** The world after a sequence of inward conversions, each by its own
    field on its own payload. *)
Definition convert_all (calls : list (ContactField * pyval)) (w : World) : World :=
  fold_left (fun w call => (ContactField_to_internal_value call.1 call.2 w).2)
    calls w.

(** A store that knows the two roles and nothing else, and the same store
    after alice was created in it without a request. *)
Definition roles_world : World :=
  {| contacts := []; contact_roles := [qe; dev]; role_contacts := [];
     changeset := [] |}.

Definition roles_alice_world : World :=
  {| contacts := [alice]; contact_roles := [qe; dev]; role_contacts := [];
     changeset := [] |}.

(** * Properties *)

(** ** Text: printing an integer and reading it back *)

Lemma string_of_uint_digits d : all_digits (NilEmpty.string_of_uint d) = true.
Proof. induction d; simpl; auto. Qed.

Lemma digit_not_space c : is_digit c = true -> is_space c = false.
Proof.
  destruct c as [[] [] [] [] [] [] [] []]; simpl; intros H;
    first [ discriminate H | reflexivity ].
Qed.

Lemma digit_not_dot c : is_digit c = true -> Ascii.eqb c "." = false.
Proof.
  destruct c as [[] [] [] [] [] [] [] []]; simpl; intros H;
    first [ discriminate H | reflexivity ].
Qed.

Lemma digit_not_sign c :
  is_digit c = true -> Ascii.eqb c "-" = false /\ Ascii.eqb c "+" = false.
Proof.
  destruct c as [[] [] [] [] [] [] [] []]; simpl; intros H;
    first [ discriminate H | split; reflexivity ].
Qed.

Lemma rstrip_digits s : all_digits s = true -> rstrip s = s.
Proof.
  induction s as [|c r IH]; [reflexivity|].
  intros [Hc Hr]%andb_prop. cbn [rstrip all_space].
  rewrite (digit_not_space c Hc). cbn. now rewrite IH.
Qed.

Lemma lstrip_digits s : all_digits s = true -> lstrip s = s.
Proof.
  destruct s as [|c r]; [reflexivity|].
  intros [Hc _]%andb_prop. cbn. now rewrite (digit_not_space c Hc).
Qed.

Lemma re_decimal_sub_digits s : all_digits s = true -> re_decimal_sub s = s.
Proof.
  induction s as [|c r IH]; [reflexivity|].
  intros [Hc Hr]%andb_prop. cbn [re_decimal_sub].
  rewrite (digit_not_dot c Hc). cbn. now rewrite IH.
Qed.

Lemma string_of_uint_nonnil d :
  d <> Decimal.Nil ->
  NilZero.string_of_uint d = NilEmpty.string_of_uint d
  /\ NilZero.uint_of_string (NilEmpty.string_of_uint d) = Some d.
Proof.
  intros Hd.
  assert (Hs : NilZero.string_of_uint d = NilEmpty.string_of_uint d).
  { destruct d; [congruence | reflexivity..]. }
  split; [assumption|]. rewrite <- Hs. now apply NilZero.usu.
Qed.

(** Reading a run of digits. *)
Lemma py_int_digits d :
  d <> Decimal.Nil ->
  py_int (NilEmpty.string_of_uint d) = Some (Z.of_uint d).
Proof.
  intros Hd. unfold py_int, py_strip.
  pose proof (string_of_uint_digits d) as Hall.
  destruct (string_of_uint_nonnil d Hd) as [_ Hread].
  rewrite (lstrip_digits _ Hall), (rstrip_digits _ Hall).
  destruct (NilEmpty.string_of_uint d) as [|c r] eqn:Hs; [discriminate Hread|].
  apply andb_prop in Hall as [Hc _].
  destruct (digit_not_sign c Hc) as [-> ->].
  now rewrite Hread.
Qed.

(** Reading a minus sign and a run of digits. *)
Lemma py_int_minus_digits d :
  d <> Decimal.Nil ->
  py_int (String "-" (NilEmpty.string_of_uint d)) = Some (- Z.of_uint d).
Proof.
  intros Hd. unfold py_int, py_strip.
  pose proof (string_of_uint_digits d) as Hall.
  destruct (string_of_uint_nonnil d Hd) as [_ Hread].
  cbn [lstrip]. change (is_space "-") with false. cbv iota.
  cbn [rstrip all_space]. change (is_space "-") with false. cbn [andb]. cbv iota.
  rewrite (rstrip_digits _ Hall). change (Ascii.eqb "-" "-") with true. cbv iota.
  now rewrite Hread.
Qed.

(** [int(str(n))] is [n], also through [re_decimal]. *)
Lemma py_int_str_of_int n : py_int (re_decimal_sub (str_of_int n)) = Some n.
Proof.
  unfold str_of_int. destruct n as [|p|p]; [reflexivity| |];
    cbn [Z.to_int NilZero.string_of_int];
    pose proof (Unsigned.to_uint_nonnil p) as Hnil;
    destruct (string_of_uint_nonnil _ Hnil) as [-> _];
    pose proof (string_of_uint_digits (Pos.to_uint p)) as Hall.
  - rewrite re_decimal_sub_digits, py_int_digits by assumption.
    f_equal. exact (DecimalZ.of_to (Z.pos p)).
  - cbn [re_decimal_sub]. change (Ascii.eqb "-" "." && _) with false. cbv iota.
    rewrite re_decimal_sub_digits, py_int_minus_digits by assumption.
    f_equal. exact (DecimalZ.of_to (Z.neg p)).
Qed.

(** Text without a digit is not numeric. *)







(** ** LimitField *)

Lemma IntegerField_to_internal_value_int n :
  IntegerField_to_internal_value (PInt n) = Ok n.
Proof.
  unfold IntegerField_to_internal_value. cbn [py_str mbind option_bind].
  now rewrite py_int_str_of_int.
Qed.

Lemma py_eq_int_refl n : py_eq_int (PInt n) n = true.
Proof. cbn. apply Z.eqb_refl. Qed.

Lemma py_eq_int_neq n u : n <> u -> py_eq_int (PInt n) u = false.
Proof. cbn. now intros ->%Z.eqb_neq. Qed.

(** C1: for every non-negative integer [n] other than the sentinel,
    [to_representation] followed by [to_internal_value] gives [n] back;
    the sentinel goes out as the text "unlimited", and that text comes in
    as the sentinel. *)
Theorem limit_field_round_trip (self : LimitField) :
  (forall n : Z, 0 <= n -> n <> unlimited_value self ->
     LimitField_to_representation self (PInt n)
       ≫= LimitField_to_internal_value self = Ok n)
  /\ LimitField_to_representation self (PInt (unlimited_value self))
     = Ok (PStr "unlimited")
  /\ LimitField_to_internal_value self (PStr "unlimited")
     = Ok (unlimited_value self).
Proof.
  split; [|split].
  - intros n _ Hn. unfold LimitField_to_representation.
    rewrite py_eq_int_neq by assumption. cbn.
    unfold LimitField_to_internal_value. cbn [py_eq_str].
    apply IntegerField_to_internal_value_int.
  - unfold LimitField_to_representation. now rewrite py_eq_int_refl.
  - reflexivity.
Qed.

Lemma limit_field_round_trip_witness :
  LimitField_to_representation count_limit_field (PInt 12)
    ≫= LimitField_to_internal_value count_limit_field = Ok 12.
Proof.
  apply (proj1 (limit_field_round_trip count_limit_field) 12);
    [lia | discriminate].
Defined.

(** The same round trip through [run_validation], for a field whose
    sentinel is not negative and that sets no upper bound. *)
Lemma limit_field_validation_round_trip (u n : Z) :
  0 <= u -> 0 <= n ->
  exists out,
    LimitField_to_representation
      (LimitField_init u {| max_value := None; min_value := None |}) (PInt n)
    = Ok out
    /\ LimitField_run_validation
         (LimitField_init u {| max_value := None; min_value := None |}) out
       = Ok n.
Proof.
  intros Hu Hn. unfold LimitField_to_representation.
  cbn [unlimited_value LimitField_init].
  destruct (Z.eq_dec n u) as [->|Hne].
  - rewrite py_eq_int_refl. eexists. split; [reflexivity|].
    unfold LimitField_run_validation, Field_run_validation. cbn.
    unfold IntegerField_run_validators. cbn.
    now apply Z.ltb_ge in Hu as ->.
  - rewrite py_eq_int_neq by assumption. eexists. split; [reflexivity|].
    unfold LimitField_run_validation, Field_run_validation.
    unfold LimitField_to_internal_value. cbn [py_eq_str].
    rewrite IntegerField_to_internal_value_int. cbn.
    unfold IntegerField_run_validators. cbn.
    now apply Z.ltb_ge in Hn as ->.
Qed.





(** The bound is the validator's: [to_internal_value] alone reads a
    negative integer as it is, and [run_validation] then refuses it. *)
Example negative_limit :
  LimitField_to_internal_value count_limit_field (PInt (-3)) = Ok (-3)
  /\ LimitField_run_validation count_limit_field (PInt (-3)) = fail "min_value".
Proof. split; reflexivity. Qed.

(** Text the parser reads: blanks around the digits and a fraction of
    zeros are dropped. *)
Example numeric_text :
  LimitField_run_validation count_limit_field (PStr " 12 ") = Ok 12
  /\ LimitField_run_validation count_limit_field (PStr "12.00") = Ok 12
  /\ LimitField_run_validation count_limit_field (PStr "12.5") = fail "invalid"
  /\ LimitField_run_validation count_limit_field (PStr "unlimited") = Ok 0.
Proof. repeat split; reflexivity. Qed.

(** ** DictField *)

Lemma first_raise_None {A} (l : list (string * Result A)) k r :
  first_raise l = None -> (k, r) ∈ l -> exists a, r = Ok a.
Proof.
  unfold first_raise. intros Hhead Hin.
  destruct r as [a|e]; [now exists a|].
  apply head_None in Hhead.
  assert (Hmem : e ∈ omap (fun kv : string * Result A =>
            match kv.2 with Raise e => Some e | Ok _ => None end) l).
  { apply list_elem_of_omap. exists (k, Raise e). split; [assumption|reflexivity]. }
  rewrite Hhead in Hmem. now apply elem_of_nil in Hmem.
Qed.

Lemma first_raise_Some {A} (l : list (string * Result A)) e :
  first_raise l = Some e -> exists k, (k, Raise e) ∈ l.
Proof.
  unfold first_raise. intros Hhead.
  apply head_Some_elem_of in Hhead.
  apply list_elem_of_omap in Hhead as [[k r] [Hin Hr]].
  cbn in Hr. destruct r; [discriminate|]. injection Hr as ->. now exists k.
Qed.

(** The validated data holds the keys of the payload. *)
Lemma DictField_keys {A} (child : pyval -> Result A) data v_data key :
  DictField_to_internal_value child data = Ok v_data ->
  bool_decide (is_Some (v_data !! key)) = payload_has data key.
Proof.
  unfold DictField_to_internal_value, payload_has.
  destruct data as [| | | |d]; try discriminate.
  destruct (first_raise (map_to_list (child <$> d))) eqn:Hfirst; [discriminate|].
  intros [= <-]. apply bool_decide_ext.
  rewrite lookup_omap, lookup_fmap.
  destruct (d !! key) as [v|] eqn:Hv; cbn.
  - destruct (first_raise_None _ key (child v) Hfirst) as [a Ha].
    { apply elem_of_map_to_list. now rewrite lookup_fmap, Hv. }
    rewrite Ha. cbn. split; eauto.
  - split; intros [? ?]; discriminate.
Qed.

Lemma DictField_raise {A} (child : pyval -> Result A) data e :
  DictField_to_internal_value child data = Raise e ->
  e = ValidationError (error_code "not_a_dict") \/ exists v, child v = Raise e.
Proof.
  unfold DictField_to_internal_value.
  destruct data as [| | | |d]; try (intros [= <-]; now left).
  destruct (first_raise (map_to_list (child <$> d))) as [e'|] eqn:Hfirst;
    [|discriminate].
  intros [= <-]. right.
  apply first_raise_Some in Hfirst as [k Hk].
  apply elem_of_map_to_list in Hk. rewrite lookup_fmap in Hk.
  destruct (d !! k) as [v|]; [|discriminate]. exists v. now injection Hk.
Qed.

Lemma CharField_raises_validation_errors v e :
  CharField_run_validation v = Raise e -> exists d, e = ValidationError d.
Proof.
  destruct v; cbn; try (intros [= <-]; eauto); try discriminate.
  destruct (String.eqb (py_strip s) ""); [intros [= <-]; eauto | discriminate].
Qed.

(** ** ContactField: which class the loop picks *)

Lemma to_internal_value_loop_select self items v_data :
  to_internal_value_loop self items v_data
  = match select_class items v_data with
    | Some clazz => resolve_contact self clazz v_data
    | None =>
        raise (ValidationError (message "Could not determine type of contact."))
    end.
Proof.
  induction items as [|[key clazz] rest IH]; [reflexivity|].
  cbn. now destruct (bool_decide (is_Some (v_data !! key))).
Qed.

Lemma select_class_username o (v_data : gmap string string) :
  bool_decide (is_Some (v_data !! "username")) = true ->
  bool_decide (is_Some (v_data !! "mail_name")) = false ->
  select_class (field_to_class o) v_data = Some Person.
Proof. intros Hu Hm. destruct o; cbn; now rewrite ?Hm, Hu. Qed.

Lemma select_class_mail_name o (v_data : gmap string string) :
  bool_decide (is_Some (v_data !! "mail_name")) = true ->
  bool_decide (is_Some (v_data !! "username")) = false ->
  select_class (field_to_class o) v_data = Some Maillist.
Proof. intros Hm Hu. destruct o; cbn; now rewrite ?Hu, Hm. Qed.

Lemma select_class_neither o (v_data : gmap string string) :
  bool_decide (is_Some (v_data !! "username")) = false ->
  bool_decide (is_Some (v_data !! "mail_name")) = false ->
  select_class (field_to_class o) v_data = None.
Proof. intros Hu Hm. destruct o; cbn; now rewrite Hu, Hm. Qed.

Lemma select_class_both o (v_data : gmap string string) :
  bool_decide (is_Some (v_data !! "username")) = true ->
  bool_decide (is_Some (v_data !! "mail_name")) = true ->
  exists clazz, select_class (field_to_class o) v_data = Some clazz.
Proof. intros Hu Hm. destruct o; cbn; rewrite ?Hu, ?Hm; eauto. Qed.

(** Neither class has both distinguishing columns. *)
Lemma keywords_ok_both clazz (v_data : gmap string string) :
  bool_decide (is_Some (v_data !! "username")) = true ->
  bool_decide (is_Some (v_data !! "mail_name")) = true ->
  keywords_ok clazz v_data = false.
Proof.
  intros [u Hu]%bool_decide_eq_true [m Hm]%bool_decide_eq_true.
  apply bool_decide_eq_false. intros Hall.
  destruct clazz.
  - specialize (Hall _ _ Hm). cbn in Hall.
    apply list_elem_of_In in Hall. cbn in Hall.
    destruct Hall as [H|[H|[]]]; discriminate H.
  - specialize (Hall _ _ Hu). cbn in Hall.
    apply list_elem_of_In in Hall. cbn in Hall.
    destruct Hall as [H|[H|[]]]; discriminate H.
Qed.

Lemma select_class_recognized o key clazz (v_data : gmap string string) :
  In (key, clazz) (field_to_class o) ->
  bool_decide (is_Some (v_data !! key)) = true ->
  keywords_ok clazz v_data = true ->
  select_class (field_to_class o) v_data = Some clazz.
Proof.
  intros Hin Hkey Hok.
  assert (Hone : bool_decide (is_Some (v_data !! "username")) = true ->
                 bool_decide (is_Some (v_data !! "mail_name")) = true -> False).
  { intros Hu Hm. pose proof (keywords_ok_both clazz v_data Hu Hm). congruence. }
  destruct (bool_decide (is_Some (v_data !! "username"))) eqn:Hu,
           (bool_decide (is_Some (v_data !! "mail_name"))) eqn:Hm.
  - exfalso. now apply Hone.
  - rewrite (select_class_username o v_data Hu Hm).
    destruct o; cbn in Hin; destruct Hin as [[= <- <-]|[[= <- <-]|[]]];
      congruence.
  - rewrite (select_class_mail_name o v_data Hm Hu).
    destruct o; cbn in Hin; destruct Hin as [[= <- <-]|[[= <- <-]|[]]];
      congruence.
  - destruct o; cbn in Hin; destruct Hin as [[= <- <-]|[[= <- <-]|[]]];
      congruence.
Qed.

Lemma to_internal_value_validated self data v_data w :
  DictField_to_internal_value (child self) data = Ok v_data ->
  ContactField_to_internal_value self data w
  = match select_class (field_to_class (order self)) v_data with
    | Some clazz => resolve_contact self clazz v_data w
    | None =>
        (Raise (ValidationError
                  (message "Could not determine type of contact.")), w)
    end.
Proof.
  intros Hd. unfold ContactField_to_internal_value, lift, query, mbind, M_bind.
  rewrite Hd, to_internal_value_loop_select.
  now destruct (select_class _ _).
Qed.

(** ** ContactField: get or create *)


Lemma isinstance_new_leaf clazz params :
  isinstance (new_leaf clazz params) clazz = true.
Proof. now destruct clazz. Qed.

(** A created row matches the keywords it was created from. *)
Lemma leaf_matches_new_leaf clazz (params : gmap string string) :
  keywords_ok clazz params = true ->
  leaf_matches (new_leaf clazz params) params = true.
Proof.
  intros Hok%bool_decide_eq_true. apply bool_decide_eq_true.
  intros k v Hkv. specialize (Hok k v Hkv). cbn beta in Hok.
  apply list_elem_of_In in Hok.
  destruct clazz; cbn in Hok |- *;
    destruct Hok as [<-|[<-|[]]]; cbn; now rewrite Hkv.
Qed.

Lemma objects_filter_created clazz kwargs w c ch :
  objects_filter clazz kwargs w = [] ->
  keywords_ok clazz kwargs = true ->
  c = {| contact_pk := next_id w; contact_leaf := new_leaf clazz kwargs |} ->
  objects_filter clazz kwargs
    {| contacts := contacts w ++ [c]; contact_roles := contact_roles w;
       role_contacts := role_contacts w; changeset := ch |} = [c].
Proof.
  intros Hnone Hok ->. unfold objects_filter in *. cbn [contacts].
  rewrite List.filter_app, Hnone. cbn.
  now rewrite isinstance_new_leaf, leaf_matches_new_leaf.
Qed.


Lemma resolve_contact_field_error self clazz v_data w :
  keywords_ok clazz v_data = false ->
  resolve_contact self clazz v_data w = (Raise FieldError, w).
Proof.
  intros Hok.
  unfold resolve_contact, mbind, M_bind, objects_get_or_create, objects_get, query.
  now rewrite Hok.
Qed.

(** C2: a payload that passes the child field, carries the key of a leaf
    class and names only columns of that class, none of whose stored rows
    matches it, creates exactly one contact row of that class; with a
    request at hand exactly one changeset entry is logged (model name, id
    of the new row, "null", the dump of its exported form), without one
    none.  Presented again, the same payload returns the same row and
    changes neither the store nor the log. *)
Theorem contact_field_get_or_create
    (self : ContactField) (data : pyval) (v_data : gmap string string)
    (key : string) (clazz : LeafClass) (w : World) :
  DictField_to_internal_value (child self) data = Ok v_data ->
  In (key, clazz) (field_to_class (order self)) ->
  payload_has data key = true ->
  keywords_ok clazz v_data = true ->
  objects_filter clazz v_data w = [] ->
  let contact :=
    {| contact_pk := next_id w; contact_leaf := new_leaf clazz v_data |} in
  let entry :=
    {| entity_type := model_name (contact_leaf contact);
       entity_id := contact_pk contact;
       old_state := literal "null";
       new_state := json_dumps (export contact) |} in
  let w1 :=
    {| contacts := contacts w ++ [contact];
       contact_roles := contact_roles w;
       role_contacts := role_contacts w;
       changeset := match context_request self with
                    | Some _ => changeset w ++ [entry]
                    | None => changeset w
                    end |} in
  ContactField_to_internal_value self data w = (Ok contact, w1)
  /\ ContactField_to_internal_value self data w1 = (Ok contact, w1).
Proof.
  intros Hd Hin Hkey Hok Hnone contact entry w1.
  rewrite <- (DictField_keys _ _ _ key Hd) in Hkey.
  rewrite !(to_internal_value_validated _ _ _ _ Hd).
  rewrite (select_class_recognized _ _ _ _ Hin Hkey Hok).
  unfold resolve_contact, mbind, M_bind, objects_get_or_create, objects_get, query.
  rewrite Hok. split.
  - rewrite Hnone. cbn. subst w1 entry contact.
    destruct (context_request self); reflexivity.
  - subst w1. erewrite objects_filter_created by (eassumption || reflexivity).
    reflexivity.
Qed.

Lemma contact_field_get_or_create_witness :
  ContactField_to_internal_value
    (ContactField_init (Some HttpRequest) username_first) alice_payload empty_world
  = (Ok alice, alice_world)
  /\ ContactField_to_internal_value
       (ContactField_init (Some HttpRequest) username_first) alice_payload alice_world
     = (Ok alice, alice_world).
Proof.
  refine (contact_field_get_or_create
            (ContactField_init (Some HttpRequest) username_first)
            alice_payload alice_data "username" Person empty_world _ _ _ _ _).
  - vm_compute. reflexivity.
  - cbn. left. reflexivity.
  - vm_compute. reflexivity.
  - vm_compute. reflexivity.
  - reflexivity.
Defined.



(** The payload of the specification resolves to a mailing list, in either
    order. *)
Example list1_is_a_maillist o :
  (ContactField_to_internal_value (ContactField_init None o)
     list1_payload empty_world).1
  = Ok {| contact_pk := 1; contact_leaf := MaillistLeaf "list1" "l@x.com" |}.
Proof. destruct o; vm_compute; reflexivity. Qed.

(** C6: a payload that holds neither "username" nor "mail_name" fails with
    a validation error and leaves the store and the log as they were; when
    its values pass the child field the error is the field's own. *)
Theorem contact_field_unknown_kind
    (request : option Request) (o : items_order) (data : pyval) (w : World) :
  payload_has data "username" = false ->
  payload_has data "mail_name" = false ->
  (exists d,
     ContactField_to_internal_value (ContactField_init request o) data w
     = (Raise (ValidationError d), w))
  /\ (forall v_data,
        DictField_to_internal_value CharField_run_validation data = Ok v_data ->
        ContactField_to_internal_value (ContactField_init request o) data w
        = (Raise (ValidationError
                    (message "Could not determine type of contact.")), w)).
Proof.
  intros Hu Hm.
  assert (Hok : forall v_data,
            DictField_to_internal_value CharField_run_validation data = Ok v_data ->
            ContactField_to_internal_value (ContactField_init request o) data w
            = (Raise (ValidationError
                        (message "Could not determine type of contact.")), w)).
  { intros v_data Hd.
    rewrite (to_internal_value_validated (ContactField_init request o) _ _ _ Hd).
    cbn [order ContactField_init].
    rewrite select_class_neither; [reflexivity| |];
      now rewrite (DictField_keys _ _ _ _ Hd). }
  split; [|exact Hok].
  destruct (DictField_to_internal_value CharField_run_validation data)
    as [v_data|e] eqn:Hd.
  - eexists. now apply (Hok v_data).
  - assert (He : exists d, e = ValidationError d).
    { apply DictField_raise in Hd as [->|[v Hv]]; [eauto|].
      now apply CharField_raises_validation_errors in Hv. }
    destruct He as [d ->]. exists d.
    unfold ContactField_to_internal_value, lift, query, mbind, M_bind.
    cbn [child ContactField_init]. now rewrite Hd.
Qed.

Lemma contact_field_unknown_kind_witness :
  exists d,
    ContactField_to_internal_value (ContactField_init None username_first)
      email_only_payload empty_world
    = (Raise (ValidationError d), empty_world).
Proof.
  refine (proj1 (contact_field_unknown_kind None username_first
                   email_only_payload empty_world _ _));
    vm_compute; reflexivity.
Defined.

(** C7, as stated, fails: the payload with both keys does not end in a
    validation error, in either order of [field_to_class]. *)
Lemma contact_field_ambiguous_counterexample :
  is_validation_error
    (ContactField_to_internal_value (ContactField_init None username_first)
       ambiguous_payload empty_world).1 = false
  /\ is_validation_error
       (ContactField_to_internal_value (ContactField_init None mail_name_first)
          ambiguous_payload empty_world).1 = false.
Proof. vm_compute. auto. Qed.

(** C7, amended: a payload that passes the child field and holds both
    "username" and "mail_name" is handed, whole, to the class whose key the
    loop meets first; the lookup has no column for the other key and
    raises the mapper's field error, no validation error.  No row is
    created and nothing is logged. *)
Theorem contact_field_ambiguous
    (self : ContactField) (data : pyval) (v_data : gmap string string) (w : World) :
  DictField_to_internal_value (child self) data = Ok v_data ->
  payload_has data "username" = true ->
  payload_has data "mail_name" = true ->
  ContactField_to_internal_value self data w = (Raise FieldError, w).
Proof.
  intros Hd Hu Hm.
  rewrite <- (DictField_keys _ _ _ _ Hd) in Hu.
  rewrite <- (DictField_keys _ _ _ _ Hd) in Hm.
  rewrite (to_internal_value_validated _ _ _ _ Hd).
  destruct (select_class_both (order self) v_data Hu Hm) as [clazz ->].
  apply resolve_contact_field_error. now apply keywords_ok_both.
Qed.

Lemma contact_field_ambiguous_witness :
  ContactField_to_internal_value
    (ContactField_init (Some HttpRequest) mail_name_first)
    ambiguous_payload empty_world
  = (Raise FieldError, empty_world).
Proof.
  refine (contact_field_ambiguous _ ambiguous_payload ambiguous_data
            empty_world _ _ _); vm_compute; reflexivity.
Defined.

(** ** Computations that only read *)

Lemma read_only_ret {A} (a : A) : read_only (mret a).
Proof. intros w. reflexivity. Qed.

Lemma read_only_raise {A} e : read_only (@raise A e).
Proof. intros w. reflexivity. Qed.

Lemma read_only_query {A} (f : World -> Result A) : read_only (query f).
Proof. intros w. reflexivity. Qed.

Lemma read_only_bind {A B} (m : M A) (k : A -> M B) :
  read_only m -> (forall a, read_only (k a)) -> read_only (m ≫= k).
Proof.
  intros Hm Hk w. unfold mbind, M_bind. specialize (Hm w).
  destruct (m w) as [[a|e] w']; cbn in Hm; subst w'; [apply Hk | reflexivity].
Qed.

Create HintDb read_only.
#[local] Hint Resolve read_only_ret read_only_raise read_only_query
  read_only_bind : read_only.

Lemma get_contact_role_pk_read_only i : read_only (get_contact_role_pk i).
Proof.
  destruct i as [r|]; cbn; [|auto with read_only].
  apply read_only_bind; [apply read_only_query | auto with read_only].
Qed.

Lemma get_contact_pk_read_only i : read_only (get_contact_pk i).
Proof.
  destruct i as [c|]; cbn; [|auto with read_only].
  apply read_only_bind.
  - destruct (isinstance _ Person); [auto with read_only|].
    destruct (isinstance _ Maillist); auto with read_only.
  - intros prefix. apply read_only_bind; [apply read_only_query|].
    intros data. apply read_only_bind; [apply read_only_query|].
    auto with read_only.
Qed.

Lemma filter_queryset_read_only self r c : read_only (filter_queryset self r c).
Proof. apply read_only_query. Qed.

(** C10: whatever the validator answers, the store and the log are after
    the call what they were before it. *)
Theorem validator_leaves_store_unchanged
    (self : UniqueRoleContactValidator) (value : Attrs) (w : World) :
  (UniqueRoleContactValidator_call self value w).2 = w.
Proof.
  revert w. change (read_only (UniqueRoleContactValidator_call self value)).
  unfold UniqueRoleContactValidator_call.
  destruct (candidate self value) as [crole_input contact_input].
  apply read_only_bind; [apply get_contact_role_pk_read_only|].
  intros r. apply read_only_bind; [apply get_contact_pk_read_only|].
  intros c. apply filter_queryset_read_only.
Qed.

(** ** Resolving a contact to its key *)

Lemma class_to_serializer_other n :
  n <> "Person" -> n <> "Maillist" -> class_to_serializer !! n = None.
Proof.
  intros Hp Hm. unfold class_to_serializer.
  rewrite !lookup_insert_ne by congruence. apply lookup_empty.
Qed.

Lemma keyword_matches_column c k clazz f v :
  contact_keyword k = Some (clazz, f) ->
  keyword_matches c k v
  = isinstance (contact_leaf c) clazz
    && bool_decide (getattr (contact_leaf c) f = Some v).
Proof. intros H. unfold keyword_matches. now rewrite H. Qed.

Lemma contact_matches_person c u e :
  contact_matches c (<["person__email" := e]> (<["person__username" := u]> ∅))
  = bool_decide (contact_leaf c = PersonLeaf u e).
Proof.
  unfold contact_matches. apply bool_decide_ext.
  rewrite map_Forall_insert
    by (rewrite lookup_insert_ne by discriminate; apply lookup_empty).
  rewrite map_Forall_insert by apply lookup_empty.
  rewrite (keyword_matches_column c "person__email" Person "email" e eq_refl).
  rewrite (keyword_matches_column c "person__username" Person "username" u eq_refl).
  destruct (contact_leaf c) as [u' e'| |]; cbn.
  - change (isinstance (PersonLeaf u' e') Person) with true. cbn.
    rewrite !bool_decide_eq_true. split.
    + intros ([= ->] & [= ->] & _). reflexivity.
    + intros [= -> ->]. split; [|split]; try reflexivity. apply map_Forall_empty.
  - split; [intros [H _]; discriminate H | discriminate].
  - split; [intros [H _]; discriminate H | discriminate].
Qed.

Lemma contact_matches_maillist c m e :
  contact_matches c (<["maillist__email" := e]> (<["maillist__mail_name" := m]> ∅))
  = bool_decide (contact_leaf c = MaillistLeaf m e).
Proof.
  unfold contact_matches. apply bool_decide_ext.
  rewrite map_Forall_insert
    by (rewrite lookup_insert_ne by discriminate; apply lookup_empty).
  rewrite map_Forall_insert by apply lookup_empty.
  rewrite (keyword_matches_column c "maillist__email" Maillist "email" e eq_refl).
  rewrite (keyword_matches_column c "maillist__mail_name" Maillist "mail_name" m
             eq_refl).
  destruct (contact_leaf c) as [|m' e'|]; cbn.
  - split; [intros [H _]; discriminate H | discriminate].
  - change (isinstance (MaillistLeaf m' e') Maillist) with true. cbn.
    rewrite !bool_decide_eq_true. split.
    + intros ([= ->] & [= ->] & _). reflexivity.
    + intros [= -> ->]. split; [|split]; try reflexivity. apply map_Forall_empty.
  - split; [intros [H _]; discriminate H | discriminate].
Qed.

Lemma keywords_resolve_two (k1 k2 v1 v2 : string) :
  is_Some (contact_keyword k1) -> is_Some (contact_keyword k2) ->
  bool_decide (map_Forall (fun k (_ : string) => is_Some (contact_keyword k))
                 (<[k1 := v1]> (<[k2 := v2]> ∅))) = true.
Proof.
  intros H1 H2. apply bool_decide_eq_true.
  intros k v. rewrite lookup_insert. case_decide as Hk1; [now subst|].
  rewrite lookup_insert. case_decide as Hk2; [now subst|].
  now rewrite lookup_empty.
Qed.

(** For a recognized leaf, [get_contact_pk] is the key of the one stored
    contact that carries the same leaf. *)
Lemma get_contact_pk_recognized c clazz w :
  leaf_class (contact_leaf c) = Some clazz ->
  get_contact_pk (Some c) w
  = (contact_pk <$>
       get_unique
         (List.filter (fun c' => bool_decide (contact_leaf c' = contact_leaf c))
            (contacts w)), w).
Proof.
  intros Hc. unfold get_contact_pk, as_leaf_class.
  destruct (contact_leaf c) as [u e|m e|n] eqn:Hl; [| |discriminate].
  - change (isinstance (PersonLeaf u e) Person) with true. cbv iota.
    unfold mbind, M_bind at 1. cbn [mret M_ret].
    unfold mbind, M_bind, lift, query.
    cbn [meta_fields leaf_class class_fields collect_fields primary_key name getattr].
    cbn [String.eqb Ascii.eqb Bool.eqb].
    change ("person__" +:+ "username") with "person__username".
    change ("person__" +:+ "email") with "person__email".
    unfold Contact_objects_get, query.
    rewrite keywords_resolve_two by (now eexists).
    rewrite (List.filter_ext _ _ (fun c' => contact_matches_person c' u e)).
    now destruct (get_unique _).
  - change (isinstance (MaillistLeaf m e) Person) with false.
    change (isinstance (MaillistLeaf m e) Maillist) with true. cbv iota.
    unfold mbind, M_bind at 1. cbn [mret M_ret].
    unfold mbind, M_bind, lift, query.
    cbn [meta_fields leaf_class class_fields collect_fields primary_key name getattr].
    cbn [String.eqb Ascii.eqb Bool.eqb].
    change ("maillist__" +:+ "mail_name") with "maillist__mail_name".
    change ("maillist__" +:+ "email") with "maillist__email".
    unfold Contact_objects_get, query.
    rewrite keywords_resolve_two by (now eexists).
    rewrite (List.filter_ext _ _ (fun c' => contact_matches_maillist c' m e)).
    now destruct (get_unique _).
Qed.

Lemma get_contact_pk_not_validation_error c clazz w :
  leaf_class (contact_leaf c) = Some clazz ->
  is_validation_error (get_contact_pk (Some c) w).1 = false.
Proof.
  intros Hc. rewrite (get_contact_pk_recognized c clazz w Hc). cbn.
  now destruct (List.filter _ _) as [|? [|? ?]].
Qed.

(** The outward form of a person. *)
Lemma to_representation_person self i u e :
  ContactField_to_representation self
    {| contact_pk := i; contact_leaf := PersonLeaf u e |}
  = Ok (PDict (<["id" := PInt i]>
                 (<["username" := PStr u]> (<["email" := PStr e]> ∅)))).
Proof. reflexivity. Qed.

(** The outward form of a mailing list. *)
Lemma to_representation_maillist self i m e :
  ContactField_to_representation self
    {| contact_pk := i; contact_leaf := MaillistLeaf m e |}
  = Ok (PDict (<["id" := PInt i]>
                 (<["mail_name" := PStr m]> (<["email" := PStr e]> ∅)))).
Proof. reflexivity. Qed.

(** C9: for a contact whose leaf class is neither Person nor Maillist,
    both [to_representation] and [get_contact_pk] raise the validation
    error "Unsupported Contact"; for a person or a mailing list the first
    returns a value and the second raises no validation error. *)
Theorem unsupported_leaf_kind (self : ContactField) (c : Contact) (w : World) :
  (forall n, contact_leaf c = OtherLeaf n -> n <> "Person" -> n <> "Maillist" ->
     ContactField_to_representation self c
     = Raise (ValidationError (unsupported_contact c))
     /\ get_contact_pk (Some c) w
        = (Raise (ValidationError (unsupported_contact c)), w))
  /\ (forall clazz, leaf_class (contact_leaf c) = Some clazz ->
        (exists repr, ContactField_to_representation self c = Ok repr)
        /\ is_validation_error (get_contact_pk (Some c) w).1 = false).
Proof.
  split.
  - intros n Hn Hp Hm. split.
    + unfold ContactField_to_representation, as_leaf_class. rewrite Hn. cbn.
      now rewrite class_to_serializer_other.
    + unfold get_contact_pk, as_leaf_class. rewrite Hn. reflexivity.
  - intros clazz Hc. split.
    + destruct c as [i [u e|m e|n]]; [| |discriminate].
      * eexists. apply to_representation_person.
      * eexists. apply to_representation_maillist.
    + now apply (get_contact_pk_not_validation_error c clazz).
Qed.

Lemma unsupported_leaf_kind_witness :
  (ContactField_to_representation (ContactField_init None username_first)
     bare_contact
   = Raise (ValidationError (unsupported_contact bare_contact))
   /\ get_contact_pk (Some bare_contact) sample_world
      = (Raise (ValidationError (unsupported_contact bare_contact)), sample_world))
  /\ is_validation_error (get_contact_pk (Some alice) sample_world).1 = false.
Proof.
  split.
  - apply (proj1 (unsupported_leaf_kind _ bare_contact sample_world) "Contact");
      [reflexivity | discriminate | discriminate].
  - apply (proj2 (unsupported_leaf_kind
                    (ContactField_init None username_first) alice sample_world)
             Person).
    reflexivity.
Defined.

(** ** UniqueRoleContactValidator *)

Lemma queryset_elem self rc w :
  In rc (role_contacts w) ->
  (forall i, instance self = Some i -> rc_pk rc <> rc_pk i) ->
  In rc (queryset self (role_pk (rc_contact_role rc))
           (contact_pk (rc_contact rc)) w).
Proof.
  intros Hin Hother. unfold queryset.
  assert (Hq : In rc (List.filter
            (fun rc' =>
               (role_pk (rc_contact_role rc') =? role_pk (rc_contact_role rc))
               && (contact_pk (rc_contact rc') =? contact_pk (rc_contact rc)))
            (role_contacts w))).
  { apply filter_In. split; [assumption|]. now rewrite !Z.eqb_refl. }
  destruct (instance self) as [i|]; [|assumption].
  apply filter_In. split; [assumption|].
  apply negb_true_iff, Z.eqb_neq. now apply Hother.
Qed.

Lemma filter_queryset_duplicate self rc w :
  In rc (role_contacts w) ->
  (forall i, instance self = Some i -> rc_pk rc <> rc_pk i) ->
  filter_queryset self (role_pk (rc_contact_role rc))
    (contact_pk (rc_contact rc)) w
  = (Raise (ValidationError (unique_set (unique_together self))), w).
Proof.
  intros Hin Hother. unfold filter_queryset, query.
  pose proof (queryset_elem self rc w Hin Hother) as Hq.
  destruct (queryset _ _ _ _); [destruct Hq | reflexivity].
Qed.

Lemma get_contact_role_pk_unique role r w :
  List.filter (fun r' => String.eqb (role_name r') (role_name role))
    (contact_roles w) = [r] ->
  get_contact_role_pk (Some role) w = (Ok (role_pk r), w).
Proof.
  intros H.
  unfold get_contact_role_pk, ContactRole_objects_get, mbind, M_bind, query.
  now rewrite H.
Qed.

(** The validator, once the candidate pair has resolved to the keys of a
    stored join record other than the one being updated. *)
Lemma call_duplicate self value w crole_input contact_input rc :
  candidate self value = (crole_input, contact_input) ->
  get_contact_role_pk crole_input w = (Ok (role_pk (rc_contact_role rc)), w) ->
  get_contact_pk contact_input w = (Ok (contact_pk (rc_contact rc)), w) ->
  In rc (role_contacts w) ->
  (forall i, instance self = Some i -> rc_pk rc <> rc_pk i) ->
  UniqueRoleContactValidator_call self value w
  = (Raise (ValidationError (unique_set (unique_together self))), w).
Proof.
  intros Hcand Hrole Hcontact Hin Hother.
  unfold UniqueRoleContactValidator_call. rewrite Hcand.
  unfold mbind, M_bind. rewrite Hrole, Hcontact.
  now apply filter_queryset_duplicate.
Qed.

(** C3: when the candidate role resolves (by name) to the key [r], the
    candidate contact (by its leaf) to the key [c], and a stored join
    record other than the one being updated has both keys, the validator
    raises the validation error that lists [unique_together].  So a second
    join record for the role and the leaf of a stored one is refused on
    creation. *)
Theorem duplicate_role_contact_rejected :
  (forall (self : UniqueRoleContactValidator) (value : Attrs) (w : World)
          (crole_input : option ContactRole) (contact_input : option Contact)
          (r c : Z) (rc : RoleContact),
     candidate self value = (crole_input, contact_input) ->
     get_contact_role_pk crole_input w = (Ok r, w) ->
     get_contact_pk contact_input w = (Ok c, w) ->
     In rc (role_contacts w) ->
     role_pk (rc_contact_role rc) = r ->
     contact_pk (rc_contact rc) = c ->
     (forall i, instance self = Some i -> rc_pk rc <> rc_pk i) ->
     UniqueRoleContactValidator_call self value w
     = (Raise (ValidationError (unique_set (unique_together self))), w))
  /\ (forall (fields : list string) (w : World) (rc : RoleContact)
             (role : ContactRole) (contact : Contact),
        In rc (role_contacts w) ->
        List.filter (fun r => String.eqb (role_name r) (role_name role))
          (contact_roles w) = [rc_contact_role rc] ->
        is_Some (leaf_class (contact_leaf contact)) ->
        List.filter (fun c => bool_decide (contact_leaf c = contact_leaf contact))
          (contacts w) = [rc_contact rc] ->
        UniqueRoleContactValidator_call (UniqueRoleContactValidator_init fields)
          {| attrs_contact_role := Some role; attrs_contact := Some contact |} w
        = (Raise (ValidationError (unique_set fields)), w)).
Proof.
  split.
  - intros self value w crole_input contact_input r c rc
      Hcand Hrole Hcontact Hin <- <- Hother.
    now apply (call_duplicate self value w crole_input contact_input rc).
  - intros fields w rc role contact Hin Hrole [clazz Hclazz] Hcontact.
    apply (call_duplicate (UniqueRoleContactValidator_init fields) _ w
             (Some role) (Some contact) rc).
    + reflexivity.
    + now apply get_contact_role_pk_unique.
    + rewrite (get_contact_pk_recognized contact clazz w Hclazz).
      now rewrite Hcontact.
    + assumption.
    + discriminate.
Qed.

Lemma duplicate_role_contact_rejected_witness :
  UniqueRoleContactValidator_call
    (UniqueRoleContactValidator_init ["contact"; "contact_role"])
    qe_alice_again sample_world
  = (Raise (ValidationError (unique_set ["contact"; "contact_role"])),
     sample_world).
Proof.
  apply (proj2 duplicate_role_contact_rejected ["contact"; "contact_role"]
           sample_world qe_alice).
  - cbn. left. reflexivity.
  - reflexivity.
  - cbn. eauto.
  - reflexivity.
Defined.

(** C4: while a record is being updated, the validator answers for the
    input what it answers for the input completed with the stored role
    and the stored contact; with the contact left out it resolves the
    stored contact, with the role left out the stored role. *)
Theorem partial_update_falls_back
    (self : UniqueRoleContactValidator) (inst : RoleContact) (value : Attrs)
    (w : World) :
  UniqueRoleContactValidator_call (set_context self (Some inst)) value w
  = UniqueRoleContactValidator_call (set_context self (Some inst))
      {| attrs_contact_role :=
           Some (default (rc_contact_role inst) (attrs_contact_role value));
         attrs_contact :=
           Some (default (rc_contact inst) (attrs_contact value)) |} w
  /\ (forall role,
        UniqueRoleContactValidator_call (set_context self (Some inst))
          {| attrs_contact_role := Some role; attrs_contact := None |} w
        = (contact_role_id ← get_contact_role_pk (Some role);
           contact_id ← get_contact_pk (Some (rc_contact inst));
           filter_queryset (set_context self (Some inst))
             contact_role_id contact_id) w)
  /\ (forall contact,
        UniqueRoleContactValidator_call (set_context self (Some inst))
          {| attrs_contact_role := None; attrs_contact := Some contact |} w
        = (contact_role_id ← get_contact_role_pk (Some (rc_contact_role inst));
           contact_id ← get_contact_pk (Some contact);
           filter_queryset (set_context self (Some inst))
             contact_role_id contact_id) w).
Proof.
  split; [|split].
  - unfold UniqueRoleContactValidator_call, candidate. cbn.
    now destruct (attrs_contact_role value), (attrs_contact value).
  - intros role. reflexivity.
  - intros contact. reflexivity.
Qed.

(** Moving the join of (qe, alice) to the role dev, the contact left out:
    the stored contact alice is used, and (dev, alice) is taken. *)
Example partial_update_role_only :
  UniqueRoleContactValidator_call
    (set_context (UniqueRoleContactValidator_init ["contact"; "contact_role"])
       (Some qe_alice))
    {| attrs_contact_role := Some dev; attrs_contact := None |} sample_world
  = (Raise (ValidationError (unique_set ["contact"; "contact_role"])),
     sample_world).
Proof. vm_compute. reflexivity. Qed.

(** Writing the join of (qe, alice) back unchanged passes: the record
    being updated is excluded from the query. *)
Example update_keeps_own_pair :
  UniqueRoleContactValidator_call
    (set_context (UniqueRoleContactValidator_init ["contact"; "contact_role"])
       (Some qe_alice))
    {| attrs_contact_role := None; attrs_contact := None |} sample_world
  = (Ok tt, sample_world).
Proof. vm_compute. reflexivity. Qed.

(** Without a record being updated nothing stands in for a field that is
    left out: [None] has no attribute to resolve. *)
Example create_without_contact :
  UniqueRoleContactValidator_call
    (UniqueRoleContactValidator_init ["contact"; "contact_role"])
    {| attrs_contact_role := Some qe; attrs_contact := None |} sample_world
  = (Raise AttributeError, sample_world).
Proof. vm_compute. reflexivity. Qed.

(** * Further properties of the code *)

(** ** LimitField *)

(** X1: whatever [run_validation] accepts, the sentinel included, is not
    negative and not above [max_value] when one was given: the validators
    run on the value [to_internal_value] returned, whichever branch
    returned it. *)
Theorem accepted_limit_in_range
    (u : Z) (kwargs : IntegerField) (data : pyval) (n : Z) :
  LimitField_run_validation (LimitField_init u kwargs) data = Ok n ->
  0 <= n /\ forall m, max_value kwargs = Some m -> n <= m.
Proof.
  unfold LimitField_run_validation, Field_run_validation.
  destruct data; try discriminate;
    (destruct (LimitField_to_internal_value _ _) as [v|e]; [|discriminate];
     cbn [mbind Result_bind];
     unfold IntegerField_run_validators;
     cbn [base LimitField_init max_value min_value];
     destruct (max_value kwargs) as [m|];
     [ destruct (m <? v) eqn:Hm; [discriminate|]; cbn [mbind Result_bind];
       destruct (v <? 0) eqn:Hv; [discriminate|]; intros [= <-];
       apply Z.ltb_ge in Hm, Hv; split; [assumption|]; now intros ? [= <-]
     | cbn [mbind Result_bind];
       destruct (v <? 0) eqn:Hv; [discriminate|]; intros [= <-];
       apply Z.ltb_ge in Hv; split; [assumption | discriminate] ]).
Qed.

Lemma accepted_limit_in_range_witness :
  0 <= 12
  /\ forall m, max_value {| max_value := Some 20; min_value := None |} = Some m ->
       12 <= m.
Proof.
  apply (accepted_limit_in_range 0 {| max_value := Some 20; min_value := None |}
           (PStr " 12 ") 12).
  reflexivity.
Defined.

(** X2: the text "unlimited" passes [run_validation] exactly when the
    sentinel lies within the bounds the validators check: not negative,
    and not above [max_value] when one was passed.  A negative sentinel
    that [max_value] lets through is refused with [min_value]. *)
Theorem sentinel_text_accepted_iff (u : Z) (kwargs : IntegerField) :
  (LimitField_run_validation (LimitField_init u kwargs) (PStr "unlimited") = Ok u
   <-> 0 <= u /\ forall m, max_value kwargs = Some m -> u <= m)
  /\ (u < 0 -> (forall m, max_value kwargs = Some m -> u <= m) ->
      LimitField_run_validation (LimitField_init u kwargs) (PStr "unlimited")
      = fail "min_value").
Proof.
  unfold LimitField_run_validation, Field_run_validation. cbn.
  unfold IntegerField_run_validators. cbn [base LimitField_init max_value min_value].
  destruct (max_value kwargs) as [m|]; cbn.
  - destruct (m <? u) eqn:Hm; cbn.
    + apply Z.ltb_lt in Hm. split.
      * split; [discriminate|]. intros [_ H]. specialize (H m eq_refl). lia.
      * intros _ H. specialize (H m eq_refl). lia.
    + apply Z.ltb_ge in Hm. destruct (u <? 0) eqn:Hu.
      * apply Z.ltb_lt in Hu. split; [|reflexivity].
        split; [discriminate|]. intros [H _]. lia.
      * apply Z.ltb_ge in Hu. split; [|lia].
        split; [|reflexivity]. intros _. split; [assumption|].
        now intros ? [= <-].
  - destruct (u <? 0) eqn:Hu.
    + apply Z.ltb_lt in Hu. split; [|reflexivity].
      split; [discriminate|]. intros [H _]. lia.
    + apply Z.ltb_ge in Hu. split; [|lia].
      split; [|reflexivity]. intros _. split; [assumption|discriminate].
Qed.

(** X3: outward, two integers are rendered alike only when they are the
    same integer; no number but the sentinel goes out as "unlimited". *)
Theorem limit_outward_injective (self : LimitField) (n m : Z) :
  LimitField_to_representation self (PInt n)
  = LimitField_to_representation self (PInt m) ->
  n = m.
Proof.
  unfold LimitField_to_representation. cbn.
  destruct (n =? unlimited_value self) eqn:Hn, (m =? unlimited_value self) eqn:Hm;
    try discriminate.
  - apply Z.eqb_eq in Hn, Hm. congruence.
  - now intros [= ->].
Qed.

Lemma limit_outward_injective_witness :
  LimitField_to_representation count_limit_field (PInt 7)
  = LimitField_to_representation count_limit_field (PInt 7)
  /\ 7 = 7.
Proof.
  split; [reflexivity|].
  apply (limit_outward_injective count_limit_field 7 7). reflexivity.
Defined.



(** ** ContactField: what a call does to the world *)

(** The three ways [resolve_contact] can end: an exception before anything
    is written, the one stored row that matches, or a new row. *)
Lemma resolve_contact_outcome self clazz v_data w :
  (exists e, resolve_contact self clazz v_data w = (Raise e, w))
  \/ (exists c, resolve_contact self clazz v_data w = (Ok c, w)
                /\ objects_filter clazz v_data w = [c])
  \/ (keywords_ok clazz v_data = true
      /\ objects_filter clazz v_data w = []
      /\ let c := {| contact_pk := next_id w;
                     contact_leaf := new_leaf clazz v_data |} in
         resolve_contact self clazz v_data w = (Ok c, created_world self w c)).
Proof.
  unfold resolve_contact, mbind, M_bind, objects_get_or_create, objects_get, query.
  destruct (keywords_ok clazz v_data) eqn:Hok; [|left; eauto].
  destruct (objects_filter clazz v_data w) as [|c [|c' rest]] eqn:Hf; cbn.
  - right. right. repeat split.
    unfold created_world. cbn. now destruct (context_request self).
  - right. left. eauto.
  - left. eauto.
Qed.

Lemma to_internal_value_outcome self data w :
  (exists e, ContactField_to_internal_value self data w = (Raise e, w))
  \/ (exists c clazz v_data,
        ContactField_to_internal_value self data w = (Ok c, w)
        /\ objects_filter clazz v_data w = [c])
  \/ (exists clazz v_data,
        keywords_ok clazz v_data = true
        /\ objects_filter clazz v_data w = []
        /\ let c := {| contact_pk := next_id w;
                       contact_leaf := new_leaf clazz v_data |} in
           ContactField_to_internal_value self data w
           = (Ok c, created_world self w c)).
Proof.
  destruct (DictField_to_internal_value (child self) data) as [v_data|e] eqn:Hd.
  - rewrite (to_internal_value_validated _ _ _ _ Hd).
    destruct (select_class _ _) as [clazz|]; [|left; eauto].
    destruct (resolve_contact_outcome self clazz v_data w)
      as [He|[[c [Hc Hf]]|(Hok & Hf & Hc)]].
    + now left.
    + right. left. exists c, clazz, v_data. now split.
    + right. right. exists clazz, v_data. now repeat split.
  - left. exists e.
    unfold ContactField_to_internal_value, lift, query, mbind, M_bind.
    now rewrite Hd.
Qed.

Lemma objects_filter_elem clazz kwargs w c :
  In c (objects_filter clazz kwargs w) ->
  In c (contacts w)
  /\ leaf_class (contact_leaf c) = Some clazz
  /\ leaf_matches (contact_leaf c) kwargs = true.
Proof.
  unfold objects_filter. intros [Hin [Hi Hm]%andb_prop]%filter_In.
  split; [assumption|]. split; [|assumption].
  now apply bool_decide_eq_true in Hi.
Qed.

(** X5: for a payload that names the key of a class and only columns of
    it, the one stored row that matches is returned and nothing is written
    or logged, request or not; when several rows match, the lookup raises
    [MultipleObjectsReturned] and nothing is created either. *)
Theorem contact_field_returns_stored_row
    (self : ContactField) (data : pyval) (v_data : gmap string string)
    (key : string) (clazz : LeafClass) (w : World) :
  DictField_to_internal_value (child self) data = Ok v_data ->
  In (key, clazz) (field_to_class (order self)) ->
  payload_has data key = true ->
  keywords_ok clazz v_data = true ->
  (forall c, objects_filter clazz v_data w = [c] ->
     ContactField_to_internal_value self data w = (Ok c, w))
  /\ (forall c1 c2 rest, objects_filter clazz v_data w = c1 :: c2 :: rest ->
        ContactField_to_internal_value self data w
        = (Raise MultipleObjectsReturned, w)).
Proof.
  intros Hd Hin Hkey Hok.
  rewrite <- (DictField_keys _ _ _ key Hd) in Hkey.
  rewrite (to_internal_value_validated _ _ _ _ Hd).
  rewrite (select_class_recognized _ _ _ _ Hin Hkey Hok).
  unfold resolve_contact, mbind, M_bind, objects_get_or_create, objects_get, query.
  rewrite Hok. split.
  - intros c ->. reflexivity.
  - intros c1 c2 rest ->. reflexivity.
Qed.

Lemma contact_field_returns_stored_row_witness :
  ContactField_to_internal_value
    (ContactField_init (Some HttpRequest) username_first) alice_payload sample_world
  = (Ok alice, sample_world).
Proof.
  refine (proj1 (contact_field_returns_stored_row
                   (ContactField_init (Some HttpRequest) username_first)
                   alice_payload alice_data "username" Person sample_world
                   _ _ _ _) alice _).
  - vm_compute. reflexivity.
  - cbn. left. reflexivity.
  - vm_compute. reflexivity.
  - vm_compute. reflexivity.
  - reflexivity.
Defined.

(** *** Payloads of the wire form *)

Lemma select_class_Some (items : list (string * LeafClass))
    (v_data : gmap string string) clazz :
  select_class items v_data = Some clazz ->
  exists key, In (key, clazz) items /\ is_Some (v_data !! key).
Proof.
  induction items as [|[key c] rest IH]; [discriminate|]. cbn.
  destruct (bool_decide (is_Some (v_data !! key))) eqn:Hkey.
  - intros [= <-]. exists key. split; [now left|].
    now apply bool_decide_eq_true in Hkey.
  - intros H. destruct (IH H) as (k & Hin & Hk). exists k. split; [now right|].
    assumption.
Qed.

(** The class the loop picks for a payload of the wire form resolves
    every key of the payload. *)
Lemma wire_keywords_ok (child : pyval -> Result string) o data
    (v_data : gmap string string) clazz :
  wire_payload data = true ->
  DictField_to_internal_value child data = Ok v_data ->
  select_class (field_to_class o) v_data = Some clazz ->
  keywords_ok clazz v_data = true.
Proof.
  intros Hwire Hd Hsel.
  destruct (select_class_Some _ v_data clazz Hsel) as (key & Hin & Hkey).
  assert (Hcols : forall X, keys_in_columns X data = true ->
                            forall k, is_Some (v_data !! k) -> k ∈ columns X).
  { intros X HX k Hk.
    assert (Hb : bool_decide (is_Some (v_data !! k)) = true)
      by now apply bool_decide_eq_true.
    rewrite (DictField_keys _ _ _ k Hd) in Hb.
    destruct data as [| | | |d]; try discriminate Hb.
    cbn in HX, Hb. apply bool_decide_eq_true in HX, Hb.
    destruct Hb as [x Hx]. exact (HX k x Hx). }
  assert (Hclass : keys_in_columns clazz data = true).
  { apply orb_prop in Hwire as [HX|HX];
      pose proof (Hcols _ HX key Hkey) as Hmem;
      apply list_elem_of_In in Hmem; cbn in Hmem;
      destruct o; cbn in Hin;
      destruct Hin as [[= <- <-]|[[= <- <-]|[]]];
      first [ assumption
            | destruct Hmem as [H|[H|[]]]; discriminate H ]. }
  apply bool_decide_eq_true. intros k x Hx.
  apply (Hcols clazz Hclass k). eauto.
Qed.

(** What a call on a payload of the wire form can do to the world: fail
    before anything is written, with the error of the dictionary, the
    field's own, or that of an ambiguous lookup; return the one stored row
    that matches; or create a row. *)
Lemma wire_outcome self data w :
  wire_payload data = true ->
  (exists e, ContactField_to_internal_value self data w = (Raise e, w)
             /\ (e = MultipleObjectsReturned
                 \/ e = ValidationError
                          (message "Could not determine type of contact.")
                 \/ DictField_to_internal_value (child self) data = Raise e))
  \/ (exists c clazz v_data,
        ContactField_to_internal_value self data w = (Ok c, w)
        /\ objects_filter clazz v_data w = [c])
  \/ (exists clazz v_data,
        keywords_ok clazz v_data = true
        /\ objects_filter clazz v_data w = []
        /\ let c := {| contact_pk := next_id w;
                       contact_leaf := new_leaf clazz v_data |} in
           ContactField_to_internal_value self data w
           = (Ok c, created_world self w c)).
Proof.
  intros Hwire.
  destruct (DictField_to_internal_value (child self) data) as [v_data|e] eqn:Hd.
  - rewrite (to_internal_value_validated _ _ _ _ Hd).
    destruct (select_class _ _) as [clazz|] eqn:Hsel; [|left; eauto].
    pose proof (wire_keywords_ok (child self) (order self) data v_data
                  clazz Hwire Hd Hsel) as Hok.
    unfold resolve_contact, mbind, M_bind, objects_get_or_create, objects_get, query.
    rewrite Hok.
    destruct (objects_filter clazz v_data w) as [|c [|c' rest]] eqn:Hf; cbn.
    + right. right. exists clazz, v_data. repeat split; [assumption..|].
      unfold created_world. cbn. now destruct (context_request self).
    + right. left. exists c, clazz, v_data. now split.
    + left. eauto.
  - left. exists e. split; [|now right; right].
    unfold ContactField_to_internal_value, lift, query, mbind, M_bind.
    now rewrite Hd.
Qed.

(** X6: on a payload of the wire form (its keys are columns of one leaf
    class) a call either leaves the world as it was or returns a contact
    it appended to the contacts, with its one changeset entry when there
    is a request.  It never touches the roles or the join records; an
    exception (of the dictionary field, the field's own, or
    [MultipleObjectsReturned]) leaves the world unchanged; without a
    request nothing is logged. *)
Theorem contact_field_only_appends
    (self : ContactField) (data : pyval) (w : World) :
  wire_payload data = true ->
  let r := ContactField_to_internal_value self data w in
  (r.2 = w \/ exists c, r.1 = Ok c /\ r.2 = created_world self w c)
  /\ contact_roles r.2 = contact_roles w
  /\ role_contacts r.2 = role_contacts w
  /\ (forall e, r.1 = Raise e ->
        r.2 = w
        /\ (e = MultipleObjectsReturned
            \/ e = ValidationError
                     (message "Could not determine type of contact.")
            \/ DictField_to_internal_value (child self) data = Raise e))
  /\ (context_request self = None -> changeset r.2 = changeset w).
Proof.
  intros Hwire. cbv zeta.
  destruct (wire_outcome self data w Hwire)
    as [(e & -> & He)|[(c & clazz & v & -> & _)|(clazz & v & _ & _ & ->)]]; cbn.
  - split; [now left|]. split; [reflexivity|]. split; [reflexivity|].
    split; [|reflexivity]. intros e' [= <-]. now split.
  - split; [now left|]. split; [reflexivity|]. split; [reflexivity|].
    split; [discriminate|reflexivity].
  - split; [right; eauto|]. split; [reflexivity|]. split; [reflexivity|].
    split; [discriminate|]. now intros ->.
Qed.

Lemma contact_field_only_appends_witness :
  (ContactField_to_internal_value
     (ContactField_init (Some HttpRequest) username_first)
     alice_payload empty_world).2 = empty_world
  \/ exists c,
       (ContactField_to_internal_value
          (ContactField_init (Some HttpRequest) username_first)
          alice_payload empty_world).1 = Ok c
       /\ (ContactField_to_internal_value
             (ContactField_init (Some HttpRequest) username_first)
             alice_payload empty_world).2
          = created_world (ContactField_init (Some HttpRequest) username_first)
              empty_world c.
Proof.
  apply (proj1 (contact_field_only_appends
                  (ContactField_init (Some HttpRequest) username_first)
                  alice_payload empty_world eq_refl)).
Defined.

(** ** ContactField: no two contacts with the same leaf *)

Lemma new_leaf_not_stored clazz (v_data : gmap string string) w c :
  keywords_ok clazz v_data = true ->
  objects_filter clazz v_data w = [] ->
  In c (contacts w) ->
  contact_leaf c <> new_leaf clazz v_data.
Proof.
  intros Hok Hnone Hin Heq.
  assert (Hc : In c (objects_filter clazz v_data w)).
  { unfold objects_filter. apply filter_In. split; [assumption|].
    rewrite Heq, isinstance_new_leaf. now apply leaf_matches_new_leaf. }
  rewrite Hnone in Hc. destruct Hc.
Qed.

Lemma leaves_unique_created self clazz (v_data : gmap string string) w :
  keywords_ok clazz v_data = true ->
  objects_filter clazz v_data w = [] ->
  leaves_unique w ->
  leaves_unique
    (created_world self w
       {| contact_pk := next_id w; contact_leaf := new_leaf clazz v_data |}).
Proof.
  intros Hok Hnone Hu. unfold leaves_unique, created_world. cbn [contacts].
  rewrite fmap_app. apply NoDup_app. split; [assumption|]. split.
  - intros l Hl Hnew. cbn in Hnew. apply list_elem_of_singleton in Hnew. subst l.
    apply list_elem_of_fmap in Hl as [c [Hc Hin]].
    apply list_elem_of_In in Hin.
    now apply (new_leaf_not_stored clazz v_data w c Hok Hnone Hin).
  - cbn. apply NoDup_singleton.
Qed.

Lemma to_internal_value_keeps_leaves_unique self data w :
  wire_payload data = true ->
  leaves_unique w ->
  leaves_unique (ContactField_to_internal_value self data w).2.
Proof.
  intros Hwire Hu.
  destruct (wire_outcome self data w Hwire)
    as [(e & -> & _)|[(c & clazz & v & -> & _)|(clazz & v & Hok & Hnone & ->)]];
    cbn; [assumption..|].
  now apply leaves_unique_created.
Qed.

(** X7: get-or-create is canonical.  Whatever fields convert whatever
    payloads of the wire form one after the other, starting from the empty
    store or from any store whose contacts have distinct leaves, no two
    stored contacts end up with the same leaf. *)
Theorem conversions_keep_leaves_unique (calls : list (ContactField * pyval)) :
  Forall (fun call => wire_payload call.2 = true) calls ->
  leaves_unique (convert_all calls empty_world)
  /\ forall w, leaves_unique w -> leaves_unique (convert_all calls w).
Proof.
  intros Hwire.
  assert (Hstep : forall w, leaves_unique w -> leaves_unique (convert_all calls w)).
  { induction calls as [|[field data] rest IH]; intros w Hu; [assumption|].
    cbn. apply IH; [exact (Forall_inv_tail Hwire)|].
    apply to_internal_value_keeps_leaves_unique; [|assumption].
    exact (Forall_inv Hwire). }
  split; [|exact Hstep]. apply Hstep. apply NoDup_nil_2.
Qed.

Lemma conversions_keep_leaves_unique_witness :
  leaves_unique
    (convert_all
       [ (ContactField_init (Some HttpRequest) username_first, alice_payload);
         (ContactField_init None mail_name_first, alice_payload);
         (ContactField_init None username_first, list1_payload) ]
       empty_world).
Proof.
  apply (proj1 (conversions_keep_leaves_unique
                  [ (ContactField_init (Some HttpRequest) username_first,
                     alice_payload);
                    (ContactField_init None mail_name_first, alice_payload);
                    (ContactField_init None username_first, list1_payload) ]
                  ltac:(repeat constructor))).
Defined.

(** ** ContactField: reading the outward form back *)

Lemma DictField_two {A} (child : pyval -> Result A) k1 k2 v1 v2 a1 a2 :
  child v1 = Ok a1 -> child v2 = Ok a2 ->
  DictField_to_internal_value child (PDict (<[k1 := v1]> (<[k2 := v2]> ∅)))
  = Ok (<[k1 := a1]> (<[k2 := a2]> ∅)).
Proof.
  intros H1 H2. unfold DictField_to_internal_value.
  rewrite !fmap_insert, fmap_empty, H1, H2.
  destruct (first_raise _) as [e|] eqn:Hfirst.
  - apply first_raise_Some in Hfirst as [k Hk].
    apply elem_of_map_to_list in Hk.
    rewrite lookup_insert in Hk. case_decide; [discriminate|].
    rewrite lookup_insert in Hk. case_decide; [discriminate|].
    now rewrite lookup_empty in Hk.
  - erewrite omap_insert_Some by reflexivity.
    erewrite omap_insert_Some by reflexivity.
    now rewrite omap_empty.
Qed.

Lemma person_row_matches (l : Leaf) u e :
  isinstance l Person
  && leaf_matches l (<["username" := u]> (<["email" := e]> ∅))
  = bool_decide (l = PersonLeaf u e).
Proof.
  unfold leaf_matches.
  destruct l as [u' e'|m' e'|n].
  - change (isinstance (PersonLeaf u' e') Person) with true. cbn [andb].
    apply bool_decide_ext.
    rewrite map_Forall_insert
      by (rewrite lookup_insert_ne by discriminate; apply lookup_empty).
    rewrite map_Forall_insert by apply lookup_empty. cbn. split.
    + intros ([= ->] & [= ->] & _). reflexivity.
    + intros [= -> ->]. split; [|split]; try reflexivity. apply map_Forall_empty.
  - change (isinstance (MaillistLeaf m' e') Person) with false. cbn.
    symmetry. now apply bool_decide_eq_false_2.
  - change (isinstance (OtherLeaf n) Person) with false. cbn.
    symmetry. now apply bool_decide_eq_false_2.
Qed.

Lemma maillist_row_matches (l : Leaf) m e :
  isinstance l Maillist
  && leaf_matches l (<["mail_name" := m]> (<["email" := e]> ∅))
  = bool_decide (l = MaillistLeaf m e).
Proof.
  unfold leaf_matches.
  destruct l as [u' e'|m' e'|n].
  - change (isinstance (PersonLeaf u' e') Maillist) with false. cbn.
    symmetry. now apply bool_decide_eq_false_2.
  - change (isinstance (MaillistLeaf m' e') Maillist) with true. cbn [andb].
    apply bool_decide_ext.
    rewrite map_Forall_insert
      by (rewrite lookup_insert_ne by discriminate; apply lookup_empty).
    rewrite map_Forall_insert by apply lookup_empty. cbn. split.
    + intros ([= ->] & [= ->] & _). reflexivity.
    + intros [= -> ->]. split; [|split]; try reflexivity. apply map_Forall_empty.
  - change (isinstance (OtherLeaf n) Maillist) with false. cbn.
    symmetry. now apply bool_decide_eq_false_2.
Qed.

Lemma keywords_ok_two clazz (k1 k2 v1 v2 : string) :
  k1 ∈ columns clazz -> k2 ∈ columns clazz ->
  keywords_ok clazz (<[k1 := v1]> (<[k2 := v2]> ∅)) = true.
Proof.
  intros H1 H2. apply bool_decide_eq_true. intros k v.
  rewrite lookup_insert. case_decide; [now subst|].
  rewrite lookup_insert. case_decide; [now subst|].
  now rewrite lookup_empty.
Qed.

Lemma visible_not_space c : is_visible c = true -> is_space c = false.
Proof.
  destruct c as [[] [] [] [] [] [] [] []]; vm_compute; intros H;
    first [ discriminate H | reflexivity ].
Qed.

Lemma rstrip_visible s : all_visible s = true -> rstrip s = s.
Proof.
  induction s as [|c r IH]; [reflexivity|].
  intros [Hc Hr]%andb_prop. cbn [rstrip all_space].
  rewrite (visible_not_space c Hc). cbn. now rewrite IH.
Qed.

Lemma lstrip_visible s : all_visible s = true -> lstrip s = s.
Proof.
  destruct s as [|c r]; [reflexivity|].
  intros [Hc _]%andb_prop. cbn. now rewrite (visible_not_space c Hc).
Qed.

(** The child field returns plain text as it is. *)
Lemma CharField_plain_text v :
  plain_text v = true -> CharField_run_validation (PStr v) = Ok v.
Proof.
  intros [Hne Hvis]%andb_prop. cbn. unfold py_strip.
  rewrite (lstrip_visible v Hvis), (rstrip_visible v Hvis).
  now apply negb_true_iff in Hne as ->.
Qed.

(** X8: the outward form of a stored person or mailing list, less its
    "id", is an inward payload that resolves to that very contact and
    writes nothing, provided the stored texts are plain (not empty, made
    of visible ASCII characters) and no other stored contact has the same
    leaf. *)
Theorem outward_form_reads_back
    (request : option Request) (o : items_order) (c : Contact)
    (clazz : LeafClass) (w : World) (d : gmap string pyval) :
  leaf_class (contact_leaf c) = Some clazz ->
  (forall f v, getattr (contact_leaf c) f = Some v -> plain_text v = true) ->
  List.filter (fun c' => bool_decide (contact_leaf c' = contact_leaf c))
    (contacts w) = [c] ->
  ContactField_to_representation (ContactField_init request o) c = Ok (PDict d) ->
  ContactField_to_internal_value (ContactField_init request o)
    (PDict (delete "id" d)) w = (Ok c, w).
Proof.
  intros Hclazz Hplain Hstored Hout.
  assert (Hclean : forall f v, getattr (contact_leaf c) f = Some v ->
                               CharField_run_validation (PStr v) = Ok v).
  { intros f v Hv. apply CharField_plain_text. now apply (Hplain f). }
  destruct c as [i [u e|m e|n]]; [| |discriminate].
  - rewrite to_representation_person in Hout. injection Hout as <-.
    rewrite delete_insert_id
      by (rewrite !lookup_insert_ne by discriminate; apply lookup_empty).
    pose proof (DictField_two CharField_run_validation "username" "email"
                  (PStr u) (PStr e) u e
                  (Hclean "username" u eq_refl) (Hclean "email" e eq_refl)) as Hd.
    rewrite (to_internal_value_validated (ContactField_init request o) _ _ _ Hd).
    cbn [order ContactField_init].
    rewrite select_class_username;
      [| apply bool_decide_eq_true; rewrite lookup_insert_eq; eauto
       | apply bool_decide_eq_false;
         rewrite !lookup_insert_ne by discriminate; rewrite lookup_empty;
         now intros [? ?] ].
    unfold resolve_contact, mbind, M_bind, objects_get_or_create, objects_get, query.
    rewrite keywords_ok_two by (apply list_elem_of_In; cbn; tauto).
    unfold objects_filter.
    rewrite (List.filter_ext _ _
               (fun c' => person_row_matches (contact_leaf c') u e)).
    cbn [contact_leaf] in Hstored. rewrite Hstored. reflexivity.
  - rewrite to_representation_maillist in Hout. injection Hout as <-.
    rewrite delete_insert_id
      by (rewrite !lookup_insert_ne by discriminate; apply lookup_empty).
    pose proof (DictField_two CharField_run_validation "mail_name" "email"
                  (PStr m) (PStr e) m e
                  (Hclean "mail_name" m eq_refl) (Hclean "email" e eq_refl)) as Hd.
    rewrite (to_internal_value_validated (ContactField_init request o) _ _ _ Hd).
    cbn [order ContactField_init].
    rewrite select_class_mail_name;
      [| apply bool_decide_eq_true; rewrite lookup_insert_eq; eauto
       | apply bool_decide_eq_false;
         rewrite !lookup_insert_ne by discriminate; rewrite lookup_empty;
         now intros [? ?] ].
    unfold resolve_contact, mbind, M_bind, objects_get_or_create, objects_get, query.
    rewrite keywords_ok_two by (apply list_elem_of_In; cbn; tauto).
    unfold objects_filter.
    rewrite (List.filter_ext _ _
               (fun c' => maillist_row_matches (contact_leaf c') m e)).
    cbn [contact_leaf] in Hstored. rewrite Hstored. reflexivity.
Qed.

Lemma outward_form_reads_back_witness :
  ContactField_to_internal_value
    (ContactField_init (Some HttpRequest) mail_name_first)
    (PDict (delete "id"
              (<["id" := PInt 1]>
                 (<["username" := PStr "alice"]>
                    (<["email" := PStr "a@x.com"]> ∅)))))
    sample_world
  = (Ok alice, sample_world).
Proof.
  apply (outward_form_reads_back (Some HttpRequest) mail_name_first alice Person
           sample_world).
  - reflexivity.
  - intros f v. cbn.
    destruct (String.eqb f "username"); [intros [= <-]; reflexivity|].
    destruct (String.eqb f "email"); [intros [= <-]; reflexivity|discriminate].
  - reflexivity.
  - reflexivity.
Defined.

(** ** From the field to the validator *)

Lemma filter_none {A} (f : A -> bool) (l : list A) :
  (forall x, In x l -> f x = false) -> List.filter f l = [].
Proof.
  induction l as [|x l IH]; [reflexivity|]. intros H. cbn.
  rewrite (H x) by now left. apply IH. intros y Hy. apply H. now right.
Qed.

Lemma filter_same_leaf (l : list Contact) c :
  NoDup (contact_leaf <$> l) -> In c l ->
  List.filter (fun c' => bool_decide (contact_leaf c' = contact_leaf c)) l = [c].
Proof.
  induction l as [|x l IH]; [intros _ []|].
  rewrite fmap_cons. intros [Hx Hl]%NoDup_cons [->|Hin]; cbn.
  - rewrite bool_decide_eq_true_2 by reflexivity. f_equal.
    apply filter_none. intros y Hy. apply bool_decide_eq_false_2. intros Heq.
    apply Hx. rewrite <- Heq. apply list_elem_of_fmap_2. now apply list_elem_of_In.
  - rewrite bool_decide_eq_false_2; [now apply IH|].
    intros Heq. apply Hx. rewrite Heq.
    apply list_elem_of_fmap_2. now apply list_elem_of_In.
Qed.

Lemma to_internal_value_returns_stored self data w c w' :
  wire_payload data = true ->
  ContactField_to_internal_value self data w = (Ok c, w') ->
  In c (contacts w') /\ is_Some (leaf_class (contact_leaf c)).
Proof.
  intros Hwire.
  destruct (wire_outcome self data w Hwire)
    as [(e & -> & _)|[(c0 & clazz & v & -> & Hf)|(clazz & v & Hok & Hnone & ->)]];
    [discriminate| |]; intros [= <- <-].
  - assert (Hin : In c0 (objects_filter clazz v w)) by (rewrite Hf; now left).
    apply objects_filter_elem in Hin as (Hin & Hc & _). split; eauto.
  - split.
    + unfold created_world. cbn [contacts]. apply in_or_app. right. now left.
    + cbn. destruct clazz; cbn; eauto.
Qed.

Lemma get_contact_pk_stored c w :
  leaves_unique w -> In c (contacts w) ->
  is_Some (leaf_class (contact_leaf c)) ->
  get_contact_pk (Some c) w = (Ok (contact_pk c), w).
Proof.
  intros Hu Hin [clazz Hc].
  rewrite (get_contact_pk_recognized c clazz w Hc).
  now rewrite (filter_same_leaf _ c Hu Hin).
Qed.

(** X9: the contact the field returns is one the validator can resolve.
    For a payload of the wire form, in a store whose contacts have
    distinct leaves, [get_contact_pk] on the returned contact, in the
    world the field left, gives that contact's own key: neither
    [DoesNotExist] nor [MultipleObjectsReturned]. *)
Theorem returned_contact_resolves
    (self : ContactField) (data : pyval) (w w' : World) (c : Contact) :
  wire_payload data = true ->
  leaves_unique w ->
  ContactField_to_internal_value self data w = (Ok c, w') ->
  get_contact_pk (Some c) w' = (Ok (contact_pk c), w').
Proof.
  intros Hwire Hu Hrun.
  destruct (to_internal_value_returns_stored _ _ _ _ _ Hwire Hrun) as [Hin Hc].
  pose proof (to_internal_value_keeps_leaves_unique self data w Hwire Hu) as Hu'.
  rewrite Hrun in Hu'. now apply get_contact_pk_stored.
Qed.

Lemma returned_contact_resolves_witness :
  get_contact_pk (Some alice) alice_world = (Ok 1, alice_world).
Proof.
  apply (returned_contact_resolves
           (ContactField_init (Some HttpRequest) username_first)
           alice_payload empty_world alice_world alice).
  - reflexivity.
  - apply NoDup_nil_2.
  - vm_compute. reflexivity.
Defined.

Lemma next_id_above w c : In c (contacts w) -> contact_pk c < next_id w.
Proof.
  unfold next_id. induction (contacts w) as [|x l IH]; [intros []|].
  intros [->|Hin]; cbn; [lia|]. specialize (IH Hin). lia.
Qed.

Lemma queryset_fresh_contact self r k w :
  (forall rc, In rc (role_contacts w) -> contact_pk (rc_contact rc) <> k) ->
  queryset self r k w = [].
Proof.
  intros Hfresh. unfold queryset.
  assert (Hq : List.filter
            (fun rc => (role_pk (rc_contact_role rc) =? r)
                       && (contact_pk (rc_contact rc) =? k))
            (role_contacts w) = []).
  { apply filter_none. intros rc Hrc. apply andb_false_iff. right.
    apply Z.eqb_neq. now apply Hfresh. }
  rewrite Hq. now destruct (instance self).
Qed.

(** X10: a contact the field has just created cannot collide.  When the
    payload was of the wire form, the returned contact was not stored
    before, the contacts had distinct leaves and every join record pointed
    at a stored contact, the validator accepts the new contact with any
    role that resolves. *)
Theorem created_contact_passes_uniqueness
    (field : ContactField) (data : pyval) (w w' : World) (c : Contact)
    (self : UniqueRoleContactValidator) (role : ContactRole) (r : Z) :
  wire_payload data = true ->
  leaves_unique w ->
  joins_reference_contacts w ->
  ContactField_to_internal_value field data w = (Ok c, w') ->
  ~ In c (contacts w) ->
  get_contact_role_pk (Some role) w' = (Ok r, w') ->
  UniqueRoleContactValidator_call self
    {| attrs_contact_role := Some role; attrs_contact := Some c |} w'
  = (Ok tt, w').
Proof.
  intros Hwire Hu Href Hrun Hnew Hrole.
  assert (Hpk : get_contact_pk (Some c) w' = (Ok (contact_pk c), w')).
  { destruct (to_internal_value_returns_stored _ _ _ _ _ Hwire Hrun) as [Hin Hc].
    pose proof (to_internal_value_keeps_leaves_unique field data w Hwire Hu)
      as Hu'.
    rewrite Hrun in Hu'. now apply get_contact_pk_stored. }
  unfold UniqueRoleContactValidator_call.
  replace (candidate self
             {| attrs_contact_role := Some role; attrs_contact := Some c |})
    with (Some role, Some c) by (unfold candidate; now destruct (instance self)).
  unfold mbind, M_bind. rewrite Hrole, Hpk.
  unfold filter_queryset, query. rewrite queryset_fresh_contact; [reflexivity|].
  destruct (wire_outcome field data w Hwire)
    as [(e & He & _)|[(c0 & clazz & v & He & Hf)|(clazz & v & Hok & Hnone & He)]];
    rewrite He in Hrun; [discriminate| |].
  - injection Hrun as <- <-. exfalso. apply Hnew.
    assert (Hin : In c0 (objects_filter clazz v w)) by (rewrite Hf; now left).
    now apply objects_filter_elem in Hin as (Hin & _).
  - injection Hrun as <- <-. cbn [created_world role_contacts contact_pk].
    intros rc Hrc Heq. destruct (Href rc Hrc) as (c0 & Hc0 & Hpk0).
    pose proof (next_id_above w c0 Hc0). lia.
Qed.

Lemma created_contact_passes_uniqueness_witness :
  UniqueRoleContactValidator_call
    (set_context (UniqueRoleContactValidator_init ["contact"; "contact_role"])
       None)
    {| attrs_contact_role := Some qe; attrs_contact := Some alice |}
    roles_alice_world
  = (Ok tt, roles_alice_world).
Proof.
  apply (created_contact_passes_uniqueness
           (ContactField_init None username_first) alice_payload
           roles_world roles_alice_world alice
           (set_context
              (UniqueRoleContactValidator_init ["contact"; "contact_role"]) None)
           qe 1).
  - reflexivity.
  - apply NoDup_nil_2.
  - intros rc [].
  - vm_compute. reflexivity.
  - intros [].
  - reflexivity.
Defined.

(** ** UniqueRoleContactValidator: when it accepts *)

Lemma queryset_spec self r c w rc :
  In rc (queryset self r c w)
  <-> In rc (role_contacts w)
      /\ role_pk (rc_contact_role rc) = r
      /\ contact_pk (rc_contact rc) = c
      /\ (forall i, instance self = Some i -> rc_pk rc <> rc_pk i).
Proof.
  unfold queryset.
  assert (Hbase : forall l,
    In rc (List.filter
             (fun rc => (role_pk (rc_contact_role rc) =? r)
                        && (contact_pk (rc_contact rc) =? c)) l)
    <-> In rc l /\ role_pk (rc_contact_role rc) = r
        /\ contact_pk (rc_contact rc) = c).
  { intros l. rewrite filter_In, andb_true_iff, !Z.eqb_eq. tauto. }
  destruct (instance self) as [i|].
  - rewrite filter_In, Hbase, negb_true_iff, Z.eqb_neq. split.
    + intros [(H1 & H2 & H3) H4]. repeat split; try assumption.
      now intros i' [= <-].
    + intros (H1 & H2 & H3 & H4). repeat split; try assumption. now apply H4.
  - rewrite Hbase. split.
    + intros (H1 & H2 & H3). repeat split; try assumption. discriminate.
    + tauto.
Qed.

(** X11: once the candidate pair has resolved to the keys [r] and [c],
    the validator has two answers only, acceptance or the uniqueness
    error, and it accepts exactly when every stored join record with both
    keys is the record being updated. *)
Theorem validator_accepts_iff
    (self : UniqueRoleContactValidator) (value : Attrs) (w : World)
    (crole_input : option ContactRole) (contact_input : option Contact)
    (r c : Z) :
  candidate self value = (crole_input, contact_input) ->
  get_contact_role_pk crole_input w = (Ok r, w) ->
  get_contact_pk contact_input w = (Ok c, w) ->
  (UniqueRoleContactValidator_call self value w = (Ok tt, w)
   \/ UniqueRoleContactValidator_call self value w
      = (Raise (ValidationError (unique_set (unique_together self))), w))
  /\ (UniqueRoleContactValidator_call self value w = (Ok tt, w)
      <-> forall rc, In rc (role_contacts w) ->
            role_pk (rc_contact_role rc) = r ->
            contact_pk (rc_contact rc) = c ->
            exists i, instance self = Some i /\ rc_pk rc = rc_pk i).
Proof.
  intros Hcand Hrole Hcontact.
  unfold UniqueRoleContactValidator_call. rewrite Hcand.
  unfold mbind, M_bind. rewrite Hrole, Hcontact.
  unfold filter_queryset, query.
  destruct (queryset self r c w) as [|rc0 rest] eqn:Hq.
  - split; [now left|]. split; [|reflexivity]. intros _ rc Hin Hr Hc.
    destruct (instance self) as [i|] eqn:Hi.
    + exists i. split; [reflexivity|].
      destruct (Z.eq_dec (rc_pk rc) (rc_pk i)) as [|Hne]; [assumption|].
      exfalso. assert (Hmem : In rc (queryset self r c w)).
      { apply queryset_spec. repeat split; try assumption.
        rewrite Hi. now intros i' [= <-]. }
      rewrite Hq in Hmem. destruct Hmem.
    + exfalso. assert (Hmem : In rc (queryset self r c w)).
      { apply queryset_spec. repeat split; try assumption.
        rewrite Hi. discriminate. }
      rewrite Hq in Hmem. destruct Hmem.
  - split; [now right|]. split; [discriminate|]. intros Hall. exfalso.
    assert (Hmem : In rc0 (queryset self r c w)) by (rewrite Hq; now left).
    apply queryset_spec in Hmem as (Hin & Hr & Hc & Hother).
    destruct (Hall rc0 Hin Hr Hc) as (i & Hi & Hpk).
    now apply (Hother i Hi).
Qed.

Lemma validator_accepts_iff_witness :
  UniqueRoleContactValidator_call
    (set_context (UniqueRoleContactValidator_init ["contact"; "contact_role"])
       (Some qe_alice))
    {| attrs_contact_role := None; attrs_contact := None |} sample_world
  = (Ok tt, sample_world)
  \/ UniqueRoleContactValidator_call
       (set_context (UniqueRoleContactValidator_init ["contact"; "contact_role"])
          (Some qe_alice))
       {| attrs_contact_role := None; attrs_contact := None |} sample_world
     = (Raise (ValidationError (unique_set ["contact"; "contact_role"])),
        sample_world).
Proof.
  refine (proj1 (validator_accepts_iff
            (set_context (UniqueRoleContactValidator_init ["contact"; "contact_role"])
               (Some qe_alice))
            {| attrs_contact_role := None; attrs_contact := None |} sample_world
            (Some qe) (Some alice) 1 1 _ _ _)); reflexivity.
Defined.

(** ** UniqueRoleContactValidator: how it fails *)

Lemma get_contact_role_pk_no_validation_error i w d :
  (get_contact_role_pk i w).1 <> Raise (ValidationError d).
Proof.
  destruct i as [role|]; [|discriminate].
  unfold get_contact_role_pk, ContactRole_objects_get, mbind, M_bind, query.
  now destruct (List.filter _ _) as [|? [|? ?]].
Qed.

Lemma get_contact_pk_validation_error i w d :
  (get_contact_pk i w).1 = Raise (ValidationError d) ->
  exists c, d = unsupported_contact c /\ leaf_class (contact_leaf c) = None.
Proof.
  destruct i as [c|]; [|discriminate].
  destruct (leaf_class (contact_leaf c)) as [clazz|] eqn:Hc.
  - rewrite (get_contact_pk_recognized c clazz w Hc). cbn.
    now destruct (List.filter _ _) as [|? [|? ?]].
  - unfold get_contact_pk, as_leaf_class, isinstance. rewrite Hc.
    cbn. intros [= <-]. eauto.
Qed.

(** X13: the validator raises two validation errors only: the uniqueness
    error with its own [unique_together], and "Unsupported Contact" for a
    contact whose leaf class is not recognized.  An unknown role name, a
    contact that is not stored, a missing field are other exceptions. *)
Theorem validator_validation_errors
    (self : UniqueRoleContactValidator) (value : Attrs) (w : World) (d : detail) :
  (UniqueRoleContactValidator_call self value w).1 = Raise (ValidationError d) ->
  d = unique_set (unique_together self)
  \/ exists c, d = unsupported_contact c /\ leaf_class (contact_leaf c) = None.
Proof.
  unfold UniqueRoleContactValidator_call.
  destruct (candidate self value) as [crole_input contact_input].
  unfold mbind, M_bind.
  pose proof (get_contact_role_pk_no_validation_error crole_input w d) as Hrole.
  destruct (get_contact_role_pk crole_input w) as [[r|e] w1];
    [|cbn in Hrole |- *; intros [= ->]; now destruct Hrole].
  pose proof (get_contact_pk_validation_error contact_input w1 d) as Hcontact.
  destruct (get_contact_pk contact_input w1) as [[c|e] w2];
    [|cbn in Hcontact |- *; intros [= ->]; right; now apply Hcontact].
  unfold filter_queryset, query.
  destruct (queryset self r c w2); [discriminate|]. cbn. intros [= <-]. now left.
Qed.

Lemma validator_validation_errors_witness :
  unique_set ["contact"; "contact_role"]
  = unique_set
      (unique_together (UniqueRoleContactValidator_init ["contact"; "contact_role"]))
  \/ exists c,
       unique_set ["contact"; "contact_role"] = unsupported_contact c
       /\ leaf_class (contact_leaf c) = None.
Proof.
  apply (validator_validation_errors
           (UniqueRoleContactValidator_init ["contact"; "contact_role"])
           qe_alice_again sample_world).
  vm_compute. reflexivity.
Defined.

(** X14: the fallback exists for updates only.  With no record being
    updated, a candidate without role, or with a role that resolves but
    without contact, makes the validator raise [AttributeError], not a
    validation error. *)
Theorem creation_needs_both_fields
    (self : UniqueRoleContactValidator) (value : Attrs) (w : World) :
  instance self = None ->
  (attrs_contact_role value = None ->
     UniqueRoleContactValidator_call self value w = (Raise AttributeError, w))
  /\ (forall r, get_contact_role_pk (attrs_contact_role value) w = (Ok r, w) ->
        attrs_contact value = None ->
        UniqueRoleContactValidator_call self value w = (Raise AttributeError, w)).
Proof.
  intros Hinst. unfold UniqueRoleContactValidator_call, candidate. rewrite Hinst.
  split.
  - intros ->. reflexivity.
  - intros r Hr ->. unfold mbind, M_bind. now rewrite Hr.
Qed.

Lemma creation_needs_both_fields_witness :
  UniqueRoleContactValidator_call
    (UniqueRoleContactValidator_init ["contact"; "contact_role"])
    {| attrs_contact_role := Some qe; attrs_contact := None |} sample_world
  = (Raise AttributeError, sample_world).
Proof.
  apply (proj2 (creation_needs_both_fields
                  (UniqueRoleContactValidator_init ["contact"; "contact_role"])
                  {| attrs_contact_role := Some qe; attrs_contact := None |}
                  sample_world eq_refl) 1); reflexivity.
Defined.

(** X15: a stored person or mailing list is found again through the
    values of its leaf.  In a store whose contacts have distinct keys,
    [get_contact_pk] on a stored contact gives that contact's key exactly
    when no other stored contact has the same leaf; when one has, the
    lookup raises [MultipleObjectsReturned]. *)
Theorem stored_contact_key_lookup (c : Contact) (clazz : LeafClass) (w : World) :
  keys_unique w ->
  In c (contacts w) ->
  leaf_class (contact_leaf c) = Some clazz ->
  (get_contact_pk (Some c) w = (Ok (contact_pk c), w)
   <-> forall c', In c' (contacts w) -> contact_leaf c' = contact_leaf c -> c' = c)
  /\ (get_contact_pk (Some c) w = (Ok (contact_pk c), w)
      \/ get_contact_pk (Some c) w = (Raise MultipleObjectsReturned, w)).
Proof.
  intros Hkeys Hin Hc.
  rewrite (get_contact_pk_recognized c clazz w Hc).
  set (same c' := bool_decide (contact_leaf c' = contact_leaf c)).
  assert (Hnd : NoDup (List.filter same (contacts w))).
  { apply NoDup_ListNoDup, List.NoDup_filter, NoDup_ListNoDup.
    exact (NoDup_fmap_1 _ _ Hkeys). }
  assert (Hmem : forall c', In c' (List.filter same (contacts w))
                            <-> In c' (contacts w)
                                /\ contact_leaf c' = contact_leaf c).
  { intros c'. rewrite filter_In. unfold same.
    now rewrite bool_decide_eq_true. }
  assert (Hself : In c (List.filter same (contacts w))) by now apply Hmem.
  destruct (List.filter same (contacts w)) as [|c1 [|c2 rest]] eqn:Hf.
  - destruct Hself.
  - destruct Hself as [->|[]]. cbn. split; [|now left].
    split; [|reflexivity]. intros _ c' Hc' Hleaf.
    assert (H : In c' [c]) by now apply Hmem.
    destruct H as [<-|[]]. reflexivity.
  - cbn. split; [|now right]. split; [discriminate|]. intros Hall. exfalso.
    assert (H1 : c1 = c).
    { destruct (proj1 (Hmem c1) ltac:(now left)). now apply Hall. }
    assert (H2 : c2 = c).
    { destruct (proj1 (Hmem c2) ltac:(right; now left)). now apply Hall. }
    subst c1 c2. apply NoDup_cons in Hnd as [Hnot _]. apply Hnot.
    apply list_elem_of_In. now left.
Qed.

Lemma stored_contact_key_lookup_witness :
  get_contact_pk (Some list1) sample_world = (Ok 2, sample_world)
  \/ get_contact_pk (Some list1) sample_world
     = (Raise MultipleObjectsReturned, sample_world).
Proof.
  apply (proj2 (stored_contact_key_lookup list1 Maillist sample_world
                  ltac:(vm_compute; repeat constructor;
                        rewrite ?list_elem_of_In; cbn; intuition discriminate)
                  ltac:(cbn; tauto) eq_refl)).
Defined.
